(** * Kali-Trace: the screen-reconstruction engine of [logger.py]

    A shallow embedding of the tokenizer, the [VT100Lite] state machine,
    the chunk boundary buffer and the line logger of [logger.py], and the
    properties of the specification settled against it.

    Python values are modelled as follows.
    - A [str] is a list of Unicode code points, each an [N].
    - [self.cursor_x] is only ever assigned [0], [max(0, _)] or
      [cursor_x + 1], so it is a [nat].
    - [self.buffer] is a list of one-character strings, i.e. a [str].
      A list has no largest length here: the padding [[' '] * n] of
      [_handle_text] is built for every [n], where Python raises once [n]
      is beyond what a list can hold.
    - A method that mutates [self] and returns a value becomes a function
      from the old object to the new object and the value.
    - The clean log is the list of the lines of its records, oldest first;
      the wall-clock timestamp in front of each record is left out. *)

From Stdlib Require Import ZArith NArith String Ascii Lia.
From stdpp Require Import base list.

Set Default Proof Using "Type".

(** ** Characters and strings *)

Abbreviation char := N (only parsing).
Abbreviation str := (list N) (only parsing).

Definition ch (a : ascii) : char := N_of_ascii a.
Arguments ch a%_char : simpl never.

Definition of_string (s : string) : str := map N_of_ascii (list_ascii_of_string s).
Arguments of_string s%_string : simpl never.

Definition BEL : char := 7%N.
Definition BS : char := 8%N.
Definition LF : char := 10%N.
Definition CR : char := 13%N.
Definition ESC : char := 27%N.
Definition SPACE : char := 32%N.

Definition in_range (lo hi c : char) : bool := (lo <=? c)%N && (c <=? hi)%N.

Definition one_of (cs : str) (c : char) : bool := existsb (N.eqb c) cs.

(** ** The Python built-ins the engine calls *)

Module Py.

(** [str.isspace] of one character, which is also the set that
    [str.rstrip()] strips. *)
Definition isspace (c : char) : bool :=
  in_range 0x09 0x0D c || in_range 0x1C 0x20 c
  || one_of [0x85; 0xA0; 0x1680; 0x2028; 0x2029; 0x202F; 0x205F; 0x3000]%N c
  || in_range 0x2000 0x200A c.

(** [s.rstrip()] *)
Definition rstrip (s : str) : str :=
  foldr (fun c acc => match acc with
                      | [] => if isspace c then [] else [c]
                      | _ => c :: acc
                      end) [] s.

(** [s.startswith(prefix)] *)
Fixpoint startswith (prefix s : str) : bool :=
  match prefix, s with
  | [], _ => true
  | p :: prefix', c :: s' => (c =? p)%N && startswith prefix' s'
  | _ :: _, [] => false
  end.

(** [s.endswith(c)] for a one-character [c] *)
Definition endswith (c : char) (s : str) : bool :=
  match last s with
  | Some x => (x =? c)%N
  | None => false
  end.

(** [s[2:-1]] *)
Definition slice_2_m1 (s : str) : str := drop 2 (take (length s - 1) s).

(** [s.rfind(c)], with [None] for [-1] *)
Fixpoint rfind (c : char) (s : str) : option nat :=
  match s with
  | [] => None
  | x :: s' =>
      match rfind c s' with
      | Some k => Some (S k)
      | None => if (x =? c)%N then Some 0 else None
      end
  end.

(** The first code point of every run of ten decimal digits (Unicode
    14, general category Nd). *)
Definition decimal_zeros : list N :=
  [0x30; 0x660; 0x6F0; 0x7C0; 0x966; 0x9E6; 0xA66; 0xAE6; 0xB66; 0xBE6;
   0xC66; 0xCE6; 0xD66; 0xDE6; 0xE50; 0xED0; 0xF20; 0x1040; 0x1090;
   0x17E0; 0x1810; 0x1946; 0x19D0; 0x1A80; 0x1A90; 0x1B50; 0x1BB0; 0x1C40;
   0x1C50; 0xA620; 0xA8D0; 0xA900; 0xA9D0; 0xA9F0; 0xAA50; 0xABF0; 0xFF10;
   0x104A0; 0x10D30; 0x11066; 0x110F0; 0x11136; 0x111D0; 0x112F0; 0x11450;
   0x114D0; 0x11650; 0x116C0; 0x11730; 0x118E0; 0x11950; 0x11C50; 0x11D50;
   0x11DA0; 0x16A60; 0x16AC0; 0x16B50; 0x1D7CE; 0x1D7D8; 0x1D7E2; 0x1D7EC;
   0x1D7F6; 0x1E140; 0x1E2F0; 0x1E950; 0x1FBF0]%N.

(** The digit a character stands for in [int()], if any. *)
Definition decimal (c : char) : option Z :=
  match List.find (fun z => in_range z (z + 9) c) decimal_zeros with
  | Some z => Some (Z.of_N (c - z))
  | None => None
  end.

(** The blanks [int()] skips on both sides of the literal: the ASCII
    ones, and the Unicode ones from U+007F up. *)
Definition int_blank (c : char) : bool :=
  in_range 0x09 0x0D c || (c =? 0x20)%N || ((0x7F <=? c)%N && isspace c).

(** [sys.int_info.default_max_str_digits] *)
Definition max_str_digits : nat := 4300.

(** Digits with single underscores between them; yields the value and
    the number of digits. *)
Fixpoint int_digits (s : str) (acc : Z) (n : nat) (after_digit : bool)
  : option (Z * nat) :=
  match s with
  | [] => if after_digit then Some (acc, n) else None
  | c :: s' =>
      match decimal c with
      | Some d => int_digits s' (10 * acc + d) (S n) true
      | None =>
          if (c =? ch "_")%N && after_digit then int_digits s' acc n false
          else None
      end
  end.

Definition int_unsigned (s : str) : option Z :=
  match int_digits s 0 0 false with
  | Some (v, n) => if (n <=? max_str_digits)%nat then Some v else None
  | None => None
  end.

Fixpoint skip_blanks (s : str) : str :=
  match s with
  | c :: s' => if int_blank c then skip_blanks s' else s
  | [] => []
  end.

(** [int(s)]; [None] stands for the [ValueError]. *)
Definition int (s : str) : option Z :=
  let body := rev (skip_blanks (rev (skip_blanks s))) in
  match body with
  | c :: ds =>
      if (c =? ch "-")%N then Z.opp <$> int_unsigned ds
      else if (c =? ch "+")%N then int_unsigned ds
      else int_unsigned body
  | [] => None
  end.

End Py.


(** ** The tokenizer

    [token_pattern] is a Python regular expression. [Regex.t] holds the
    constructs it uses, and [Regex.run] is the backtracking matcher of
    [re]: alternatives are tried from left to right, a greedy star takes
    as many characters as it can and gives them back one at a time, a lazy
    star takes as few as it can. The continuation [k] matches the rest of
    the pattern and returns the input left after the whole match. *)

Module Regex.

Inductive t :=
| Lit (c : char)               (* one given character *)
| Class (p : char → bool)      (* [...] *)
| Cat (r1 r2 : t)              (* r1 r2 *)
| Or (r1 r2 : t)               (* r1|r2 *)
| Star (p : char → bool)       (* [...]* *)
| LazyStar (p : char → bool).  (* [...]*? *)

Fixpoint star (p : char → bool) (s : str) (k : str → option str) : option str :=
  match s with
  | c :: s' =>
      if p c then
        match star p s' k with
        | Some rest => Some rest
        | None => k s
        end
      else k s
  | [] => k s
  end.

Fixpoint lazy_star (p : char → bool) (s : str) (k : str → option str) : option str :=
  match k s with
  | Some rest => Some rest
  | None =>
      match s with
      | c :: s' => if p c then lazy_star p s' k else None
      | [] => None
      end
  end.

Fixpoint run (r : t) (s : str) (k : str → option str) : option str :=
  match r with
  | Lit c =>
      match s with
      | x :: s' => if (x =? c)%N then k s' else None
      | [] => None
      end
  | Class p =>
      match s with
      | x :: s' => if p x then k s' else None
      | [] => None
      end
  | Cat r1 r2 => run r1 s (λ s1, run r2 s1 k)
  | Or r1 r2 =>
      match run r1 s k with
      | Some rest => Some rest
      | None => run r2 s k
      end
  | Star p => star p s k
  | LazyStar p => lazy_star p s k
  end.

(** [r.match(s)]: the length of the match of [r] at the start of [s]. *)
Definition match_length (r : t) (s : str) : option nat :=
  match run r s Some with
  | Some rest => Some (length s - length rest)
  | None => None
  end.

End Regex.

Import Regex.
Infix "⋅" := Cat (at level 41, right associativity).

(** The character classes of the pattern: [[0-9;?]], [[\x40-\x7e]],
    [[0-9]], the dot, which is anything but a line feed, and
    [[=@>78()EHM]]. *)
Definition csi_param (c : char) : bool :=
  in_range (ch "0") (ch "9") c || one_of [ch ";"; ch "?"] c.
Definition csi_final (c : char) : bool := in_range 0x40 0x7E c.
Definition digit (c : char) : bool := in_range (ch "0") (ch "9") c.
Definition dot (c : char) : bool := negb (c =? LF)%N.
Definition short_final (c : char) : bool := one_of (of_string "=@>78()EHM") c.

(** [\x1b\[[0-9;?]*[\x40-\x7e]] *)
Definition csi_pattern : Regex.t :=
  Lit ESC ⋅ Lit (ch "[") ⋅ Star csi_param ⋅ Class csi_final.

(** [\x1b][0-9]*;.*?(?:\x07|\x1b\\)] *)
Definition osc_end : Regex.t := Or (Lit BEL) (Lit ESC ⋅ Lit (ch "\")).
Definition osc_pattern : Regex.t :=
  Lit ESC ⋅ Lit (ch "]") ⋅ Star digit ⋅ Lit (ch ";") ⋅ LazyStar dot ⋅ osc_end.

(** [\x1b[=@>78()EHM]] *)
Definition short_pattern : Regex.t := Lit ESC ⋅ Class short_final.

(** [token_pattern] is [(csi)|(osc)|(short)]. A match at the start of [s]
    gives the values of its three groups, of which one holds the matched
    text and the other two are [None], and the length of the match. *)
Definition token_pattern_match (s : str) : option (list (option str) * nat) :=
  match match_length csi_pattern s with
  | Some n => Some ([Some (take n s); None; None], n)
  | None =>
      match match_length osc_pattern s with
      | Some n => Some ([None; Some (take n s); None], n)
      | None =>
          match match_length short_pattern s with
          | Some n => Some ([None; None; Some (take n s)], n)
          | None => None
          end
      end
  end.

(** [token_pattern.split(chunk)] scans the chunk from left to right. [text]
    is the text passed over since the last match, and [skip] counts the
    characters of the last match still ahead, which start no new match.
    Every match closes the text before it and adds its three groups; the
    text after the last match closes the list. No match is empty. *)
Fixpoint split_scan (s : str) (skip : nat) (text : str) : list (option str) :=
  match s with
  | [] => [Some text]
  | c :: s' =>
      match skip with
      | S n => split_scan s' n text
      | O =>
          match token_pattern_match s with
          | Some (groups, n) => Some text :: groups ++ split_scan s' (n - 1) []
          | None => split_scan s' 0 (text ++ [c])
          end
      end
  end.

Definition token_pattern_split (chunk : str) : list (option str) :=
  split_scan chunk 0 [].

(** ** The state machine: class [VT100Lite] *)

Record VT100Lite := mkVT {
  cursor_x : nat;
  buffer : str;
  in_alt_screen : bool;
  bracketed_paste_mode : bool;
  last_logged_line : option str
}.

(** [VT100Lite()] *)
Definition VT100Lite_init : VT100Lite :=
  {| cursor_x := 0; buffer := []; in_alt_screen := false;
     bracketed_paste_mode := false; last_logged_line := None |}.

Definition set_cursor_x (x : nat) (vt : VT100Lite) : VT100Lite :=
  mkVT x (buffer vt) (in_alt_screen vt) (bracketed_paste_mode vt) (last_logged_line vt).
Definition set_buffer (b : str) (vt : VT100Lite) : VT100Lite :=
  mkVT (cursor_x vt) b (in_alt_screen vt) (bracketed_paste_mode vt) (last_logged_line vt).
Definition set_in_alt_screen (a : bool) (vt : VT100Lite) : VT100Lite :=
  mkVT (cursor_x vt) (buffer vt) a (bracketed_paste_mode vt) (last_logged_line vt).
Definition set_bracketed_paste_mode (p : bool) (vt : VT100Lite) : VT100Lite :=
  mkVT (cursor_x vt) (buffer vt) (in_alt_screen vt) p (last_logged_line vt).
Definition set_last_logged_line (l : option str) (vt : VT100Lite) : VT100Lite :=
  mkVT (cursor_x vt) (buffer vt) (in_alt_screen vt) (bracketed_paste_mode vt) l.

(** [a == b] on strings *)
Fixpoint str_eqb (a b : str) : bool :=
  match a, b with
  | [], [] => true
  | x :: a', y :: b' => (x =? y)%N && str_eqb a' b'
  | _, _ => false
  end.

Definition CSI (s : string) : str := ESC :: ch "[" :: of_string s.

Definition entered_marker : str := LF :: of_string "[LOG: Entered Interactive Mode]".
Definition exited_marker : str := LF :: of_string "[LOG: Exited Interactive Mode]".

(** The buffer is flushed as a line where the code has
[[
    line_str = "".join(self.buffer).rstrip()
    if line_str: out.append(line_str)
    self.buffer = []
    self.cursor_x = 0
]] *)
Definition break_line (vt : VT100Lite) (out : list str) : VT100Lite * list str :=
  let line_str := Py.rstrip (buffer vt) in
  (set_cursor_x 0 (set_buffer [] vt),
   match line_str with [] => out | _ => out ++ [line_str] end).

(** [self._handle_csi(seq, out_list)] *)
Definition _handle_csi (vt : VT100Lite) (seq : str) (out_list : list str)
  : VT100Lite * list str :=
  if str_eqb seq (CSI "?1049h") || str_eqb seq (CSI "?47h") then
    (set_in_alt_screen true vt, out_list ++ [entered_marker])
  else if str_eqb seq (CSI "?1049l") || str_eqb seq (CSI "?47l") then
    (set_in_alt_screen false vt, out_list ++ [exited_marker])
  else if str_eqb seq (CSI "?2004h") then (set_bracketed_paste_mode true vt, out_list)
  else if str_eqb seq (CSI "?2004l") then (set_bracketed_paste_mode false vt, out_list)
  else if Py.endswith (ch "K") seq then
    let mode :=
      if (3 <? length seq)%nat then
        match Py.int (Py.slice_2_m1 seq) with
        | Some m => m
        | None => 0%Z
        end
      else 0%Z in
    if (mode =? 0)%Z then (set_buffer (take (cursor_x vt) (buffer vt)) vt, out_list)
    else if (mode =? 2)%Z then (set_cursor_x 0 (set_buffer [] vt), out_list)
    else (vt, out_list)
  else if Py.endswith (ch "G") seq || Py.endswith (ch "`") seq then
    match Py.int (Py.slice_2_m1 seq) with
    | Some col => (set_cursor_x (Z.to_nat (Z.max 0 (col - 1))) vt, out_list)
    | None => (vt, out_list)
    end
  else if (Py.endswith (ch "A") seq || Py.endswith (ch "B") seq
           || Py.endswith (ch "H") seq || Py.endswith (ch "f") seq)
          && in_alt_screen vt then
    break_line vt out_list
  else (vt, out_list).

(** One turn of the loop [for char in text] of [_handle_text]. *)
Definition handle_char (acc : VT100Lite * list str) (c : char) : VT100Lite * list str :=
  let '(vt, lines_out) := acc in
  if (c =? CR)%N then
    if in_alt_screen vt then break_line vt lines_out
    else (set_cursor_x 0 vt, lines_out)
  else if (c =? LF)%N then break_line vt lines_out
  else if (c =? BS)%N then
    (set_cursor_x (Z.to_nat (Z.max 0 (Z.of_nat (cursor_x vt) - 1))) vt, lines_out)
  else if (c =? BEL)%N then (vt, lines_out)
  else
    let buf :=
      if (length (buffer vt) <=? cursor_x vt)%nat
      then buffer vt ++ replicate (cursor_x vt - length (buffer vt) + 1) SPACE
      else buffer vt in
    (set_cursor_x (cursor_x vt + 1) (set_buffer (<[cursor_x vt := c]> buf) vt),
     lines_out).

(** [self._handle_text(text)] *)
Definition _handle_text (vt : VT100Lite) (text : str) : VT100Lite * list str :=
  foldl handle_char (vt, []) text.

(** One turn of the loop [for part in parts] of [process]. *)
Definition handle_part (acc : VT100Lite * list str) (part : option str)
  : VT100Lite * list str :=
  match part with
  | None | Some [] => acc
  | Some part =>
      let '(vt, completed_lines) := acc in
      if Py.startswith [ESC; ch "["] part then _handle_csi vt part completed_lines
      else if Py.startswith [ESC; ch "]"] part then acc
      else if Py.startswith [ESC] part then acc
      else
        let '(vt', lines) := _handle_text vt part in
        (vt', completed_lines ++ lines)
  end.

(** [self.process(chunk)] *)
Definition process (vt : VT100Lite) (chunk : str) : VT100Lite * list str :=
  foldl handle_part (vt, []) (token_pattern_split chunk).

(** [self.flush()] *)
Definition flush (vt : VT100Lite) : VT100Lite * list str :=
  match buffer vt with
  | [] => (vt, [])
  | _ => (vt, [Py.rstrip (buffer vt)])
  end.

(** ** The chunk boundary buffer and the line logger: [main]

    [main] is modelled from the point where the pseudo-terminal is open.
    Its input is the list of the texts decoded from the successive reads
    of the pseudo-terminal; the loop ends when the list does, which stands
    for the empty read or the [OSError] that ends the session. *)

Record Session := mkSession {
  vt : VT100Lite;
  clean_log_buffer : str;
  clean_file : list str
}.

Definition Session_init : Session :=
  {| vt := VT100Lite_init; clean_log_buffer := []; clean_file := [] |}.

(** Step 2 of the loop, "wait for complete ANSI sequences": from the
    accumulated [clean_log_buffer] to [to_process] and the new
    [clean_log_buffer]. *)
Definition hold_back (clean_log_buffer : str) : str * str :=
  match Py.rfind ESC clean_log_buffer with
  | None => (clean_log_buffer, [])
  | Some last_esc =>
      if (256 <? length clean_log_buffer - last_esc)%nat
      then (clean_log_buffer, [])
      else (take last_esc clean_log_buffer, drop last_esc clean_log_buffer)
  end.

(** One turn of the loop [for line in lines], step 4. *)
Definition log_line (acc : VT100Lite * list str) (line : str) : VT100Lite * list str :=
  let '(v, file) := acc in
  let same :=
    match last_logged_line v with
    | Some l => str_eqb line l
    | None => false
    end in
  if same then acc
  else (set_last_logged_line (Some line) v, file ++ [line]).

(** The part of the loop body under [if master_fd in r], from the decoded
    [text] on. The second component is [lines], the completed lines of
    this turn. *)
Definition on_output (st : Session) (text : str) : Session * list str :=
  let '(to_process, pending) := hold_back (clean_log_buffer st ++ text) in
  match to_process with
  | [] => (mkSession (vt st) pending (clean_file st), [])
  | _ =>
      let '(v, lines) := process (vt st) to_process in
      let '(v', file) := foldl log_line (v, clean_file st) lines in
      (mkSession v' pending file, lines)
  end.

(** The [while True] loop over the reads; the completed lines of all
    turns are collected in order. *)
Definition main_loop (st : Session) (reads : list str) : Session * list str :=
  foldl (λ '(st, produced) text,
           let '(st', lines) := on_output st text in (st', produced ++ lines))
        (st, []) reads.

(** The [finally] block, "flush trailing". The second component is
    [trailing_lines + vt.flush()], the lines it writes. *)
Definition finally_block (st : Session) : Session * list str :=
  let '(v0, trailing_lines) := flush (vt st) in
  let '(v1, trailing_lines) :=
    match clean_log_buffer st with
    | [] => (v0, trailing_lines)
    | _ => let '(v, lines) := process v0 (clean_log_buffer st) in
           (v, trailing_lines ++ lines)
    end in
  let '(v2, final) := flush v1 in
  (mkSession v2 (clean_log_buffer st) (clean_file st ++ trailing_lines ++ final),
   trailing_lines ++ final).

(** A whole session from the state [st]: the final state and every
    completed line the state machine produced, in order. *)
Definition session_run (st : Session) (reads : list str) : Session * list str :=
  let '(st1, produced) := main_loop st reads in
  let '(st2, trailing) := finally_block st1 in
  (st2, produced ++ trailing).

(** [main()], seen through its clean log. *)
Definition main (reads : list str) : list str :=
  clean_file (session_run Session_init reads).1.

(** * The vocabulary of the properties *)

(** ** Writing at the cursor *)

(** The four characters [_handle_text] does not write into the buffer. *)
Definition is_control (c : char) : bool := one_of [CR; LF; BS; BEL] c.

(** The state after [c] is written at the cursor. *)
Definition write (c : char) (v : VT100Lite) : VT100Lite :=
  set_cursor_x (cursor_x v + 1)
    (set_buffer
       (<[cursor_x v := c]>
          (if (length (buffer v) <=? cursor_x v)%nat
           then buffer v ++ replicate (cursor_x v - length (buffer v) + 1) SPACE
           else buffer v)) v).

(** ** Indices, plain text and text without tokens *)

(** [k] is the index of the last [c] in [s]. *)
Definition last_index_of (c : char) (s : str) (k : nat) : Prop :=
  s !! k = Some c ∧ ∀ j, k < j → s !! j ≠ Some c.

(** No pattern matches at [s] or further right in it. *)
Fixpoint matches_nowhere (s : str) : bool :=
  match token_pattern_match s with
  | Some _ => false
  | None =>
      match s with
      | [] => true
      | _ :: s' => matches_nowhere s'
      end
  end.

(** A character other than the escape character and the four that
    [_handle_text] does not write. *)
Definition is_plain (c : char) : bool := negb (one_of [ESC; CR; LF; BS; BEL] c).

Definition nonempty (s : str) : bool := match s with [] => false | _ => true end.

(** ** Streams of complete sequences

    A stream is well formed when it is a sequence of items: characters
    other than the escape character, and complete sequences of the three
    forms, in which the only escape character is the first character. An
    OSC sequence of such a stream ends with a bell. *)

Inductive item :=
| Plain (c : char)
| Csi (params : str) (final : char)
| Osc (digits text : str)
| Short (c : char).

Definition osc_text (c : char) : bool :=
  dot c && negb (c =? BEL)%N && negb (c =? ESC)%N.

Definition item_ok (it : item) : bool :=
  match it with
  | Plain c => negb (c =? ESC)%N
  | Csi params final => forallb csi_param params && csi_final final
  | Osc digits text => forallb digit digits && forallb osc_text text
  | Short c => short_final c
  end.

Definition render (it : item) : str :=
  match it with
  | Plain c => [c]
  | Csi params final => ESC :: ch "[" :: params ++ [final]
  | Osc digits text => ESC :: ch "]" :: digits ++ ch ";" :: text ++ [BEL]
  | Short c => [ESC; c]
  end.

Definition stream (items : list item) : str := concat (map render items).

(** What the state machine does with one item. *)
Definition exec_item (acc : VT100Lite * list str) (it : item) : VT100Lite * list str :=
  match it with
  | Plain c => handle_char acc c
  | Csi _ _ => _handle_csi acc.1 (render it) acc.2
  | Osc _ _ | Short _ => acc
  end.

(** The groups of the match that an item of the three forms gives. *)
Definition groups_of (it : item) : list (option str) :=
  match it with
  | Plain _ => []
  | Csi _ _ => [Some (render it); None; None]
  | Osc _ _ => [None; Some (render it); None]
  | Short _ => [None; None; Some (render it)]
  end.

(** [exec v items]: the items run from the state [v]. *)
Definition exec (v : VT100Lite) (items : list item) : VT100Lite * list str :=
  foldl exec_item (v, []) items.

(** What the loop over [lines] does to [last_logged_line] and which
    lines it writes, from the last logged line alone. *)
Definition logged (last : option str) (lines : list str) : option str * list str :=
  foldl (λ '(last, written) line,
           let same := match last with Some l => str_eqb line l | None => false end in
           if same then (last, written) else (Some line, written ++ [line]))
        (last, []) lines.

(** Steps 3 and 4 of the loop body on the released text [P]. *)
Definition emulate_and_log (v : VT100Lite) (file : list str) (P : str)
  : VT100Lite * list str * list str :=
  let '(v1, lines) := process v P in
  let '(v2, file') := foldl log_line (v1, file) lines in
  (v2, file', lines).

(** ** A stream read in two chunks *)

(** The first chunk does not end more than 256 characters after its
    last escape character. *)
Definition split_within_window (chunk : str) : bool :=
  match Py.rfind ESC chunk with
  | Some k => (length chunk - k <=? 256)%nat
  | None => true
  end.

(** ** Parameters of CSI sequences, and logs *)

(** The number that a string of ASCII digits stands for. *)
Definition digits_value (ds : str) : nat :=
  foldl (λ acc c, 10 * acc + N.to_nat (c - ch "0")) 0 ds.

(** The parameter has a character that is no digit. *)
Definition has_separator (params : str) : bool :=
  existsb (one_of [ch ";"; ch "?"]) params.

(** The parameters of the mode sequences [_handle_csi] knows. *)
Definition mode_params : list str :=
  [of_string "?1049"; of_string "?47"; of_string "?2004"].

(** The sequence with these parameters and this final character is one
    of the six mode sequences. *)
Definition is_mode_sequence (params : str) (final : char) : bool :=
  one_of [ch "h"; ch "l"] final && existsb (str_eqb params) mode_params.

(** The item is one of the four alternate-screen sequences. *)
Definition is_alt_screen_item (it : item) : bool :=
  match it with
  | Csi params final =>
      one_of [ch "h"; ch "l"] final
      && (str_eqb params (of_string "?1049") || str_eqb params (of_string "?47"))
  | _ => false
  end.

(** A line that is not empty and has no whitespace at its end. *)
Definition is_trimmed (line : str) : Prop := line ≠ [] ∧ Py.rstrip line = line.

(** No entry of [l] equals the entry in front of it. *)
Definition no_adjacent_repeat (l : list str) : Prop :=
  ∀ i x y, l !! i = Some x → l !! S i = Some y → x ≠ y.

(** The text parts and tokens of a split, without the empty groups. *)
Definition pieces (parts : list (option str)) : list str := omap id parts.

(** ** The parts of a split, by position *)

(** [scanned s parts]: [parts] is the scan of [s] from left to right. A
    text part runs up to the first position where the pattern matches and
    holds no such position; the three groups of that match follow it, and
    then the scan of what the match leaves. *)
Inductive scanned : str → list (option str) → Prop :=
| scanned_text (text : str) :
    (∀ j, j < length text → token_pattern_match (drop j text) = None) →
    scanned text [Some text]
| scanned_match (text tok rest : str) (groups parts : list (option str)) :
    (∀ j, j < length text →
          token_pattern_match (drop j (text ++ tok ++ rest)) = None) →
    token_pattern_match (tok ++ rest) = Some (groups, length tok) →
    scanned rest parts →
    scanned (text ++ tok ++ rest) (Some text :: groups ++ parts).

(** The position in the chunk at which the part after [parts1] starts. *)
Definition start_of (parts1 : list (option str)) : nat :=
  length (concat (pieces parts1)).

(** [re.split] with three groups returns the text parts at the indices
    0, 4, 8, ... of its list. *)
Definition is_text_index (n : nat) : bool := (n mod 4 =? 0)%nat.

Arguments Py.rstrip : simpl never.
Arguments Py.int : simpl never.

(** * Properties *)

(** ** Tactics *)

(** The parts of a closed chunk are computed; the handlers then run on
    the state, which may be a variable. *)
Ltac run_process :=
  unfold process;
  match goal with
  | |- context [token_pattern_split ?c] =>
      let parts := fresh "parts" in
      set (parts := token_pattern_split c); vm_compute in parts; subst parts
  end;
  cbn.

(** Character constants are replaced by their code points. *)
Ltac eval_ch :=
  repeat match goal with
         | |- context [ch ?a] =>
             let n := eval vm_compute in (ch a) in change (ch a) with n
         end.

(** ** The alternate-screen markers *)

(** C1, as the code has it: the four alternate-screen sequences set the
    flag and emit one line each, in every state; the line starts with a
    line feed, which is followed by the marker text. Nothing else in the
    state changes. *)
Theorem alt_screen_sequences (v : VT100Lite) :
  process v (CSI "?1049h")
    = (set_in_alt_screen true v, [LF :: of_string "[LOG: Entered Interactive Mode]"])
  ∧ process v (CSI "?47h")
    = (set_in_alt_screen true v, [LF :: of_string "[LOG: Entered Interactive Mode]"])
  ∧ process v (CSI "?1049l")
    = (set_in_alt_screen false v, [LF :: of_string "[LOG: Exited Interactive Mode]"])
  ∧ process v (CSI "?47l")
    = (set_in_alt_screen false v, [LF :: of_string "[LOG: Exited Interactive Mode]"]).
Proof. repeat split; run_process; reflexivity. Qed.

(** C1, as stated, fails: the line emitted for [ESC [ ? 1049 h] is not
    exactly the marker text, it has a line feed in front. *)
Lemma entered_marker_is_not_bare :
  (process VT100Lite_init (CSI "?1049h")).2
    ≠ [of_string "[LOG: Entered Interactive Mode]"].
Proof. vm_compute. discriminate. Qed.

(** ** Carriage return *)

(** C6: a carriage return in alternate-screen mode emits the trimmed
    buffer when that is not empty and resets buffer and cursor; outside
    alternate-screen mode it resets the cursor only. The chunk
    [hello CR LF] gives the one line [hello]. *)
Theorem carriage_return (x : nat) (b : str) (p : bool) (l : option str) :
  process (mkVT x b true p l) [CR]
    = (mkVT 0 [] true p l, match Py.rstrip b with [] => [] | line => [line] end)
  ∧ process (mkVT x b false p l) [CR] = (mkVT 0 b false p l, [])
  ∧ (process VT100Lite_init (of_string "hello" ++ [CR; LF])).2 = [of_string "hello"].
Proof.
  split; [|split].
  - run_process. unfold break_line; cbn. by destruct (Py.rstrip b).
  - run_process. reflexivity.
  - vm_compute. reflexivity.
Qed.

(** ** Backspace and overwrite *)

(** C8: [foo], two backspaces, [bar LF] give the one line [fbar], fed as
    one chunk or as three. *)
Theorem foo_backspace_bar :
  (process VT100Lite_init (of_string "foo" ++ [BS; BS] ++ of_string "bar" ++ [LF])).2
    = [of_string "fbar"]
  ∧ (let '(v1, l1) := process VT100Lite_init (of_string "foo") in
     let '(v2, l2) := process v1 [BS; BS] in
     let '(v3, l3) := process v2 (of_string "bar" ++ [LF]) in
     l1 ++ l2 ++ l3) = [of_string "fbar"].
Proof. split; vm_compute; reflexivity. Qed.

(** ** The cursor after a write *)

Lemma handle_char_write (v : VT100Lite) (out : list str) (c : char) :
  is_control c = false → handle_char (v, out) c = (write c v, out).
Proof.
  unfold is_control, one_of, handle_char; cbn.
  rewrite !orb_false_iff. intros (-> & -> & -> & -> & _). reflexivity.
Qed.

Lemma write_spec (v : VT100Lite) (c : char) :
  cursor_x (write c v) = cursor_x v + 1
  ∧ cursor_x (write c v) ≤ length (buffer (write c v))
  ∧ buffer (write c v) !! cursor_x v = Some c.
Proof.
  unfold write; cbn. split; [done|].
  destruct (Nat.leb_spec (length (buffer v)) (cursor_x v)).
  - rewrite length_insert, length_app, length_replicate. split; [lia|].
    apply list_lookup_insert_eq. rewrite length_app, length_replicate. lia.
  - rewrite length_insert. split; [lia|]. by apply list_lookup_insert_eq.
Qed.

(** C9, as the code has it: after a character other than carriage
    return, line feed, backspace and bell is processed, it sits at the
    column the cursor was on, the cursor is one column further, and the
    buffer is at least as long as the new cursor column. *)
Theorem cursor_within_buffer_after_write (v : VT100Lite) (c : char) :
  is_control c = false →
  let v' := (_handle_text v [c]).1 in
  buffer v' !! cursor_x v = Some c
  ∧ cursor_x v' = cursor_x v + 1
  ∧ length (buffer v') ≥ cursor_x v'.
Proof.
  intros Hc. unfold _handle_text; cbn [foldl]. rewrite handle_char_write by done.
  cbn [fst]. destruct (write_spec v c) as (? & ? & ?). auto with lia.
Qed.

Lemma cursor_within_buffer_after_write_witness :
  is_control (ch "a") = false
  ∧ let v' := (_handle_text VT100Lite_init [ch "a"]).1 in
    buffer v' !! cursor_x VT100Lite_init = Some (ch "a")
    ∧ cursor_x v' = cursor_x VT100Lite_init + 1
    ∧ length (buffer v') ≥ cursor_x v'.
Proof.
  split; [reflexivity|].
  apply (cursor_within_buffer_after_write VT100Lite_init (ch "a")). reflexivity.
Defined.

(** C9, as stated, fails: after [a] is written in the initial state the
    buffer has length 1 and the cursor is on column 1, so the buffer is
    not longer than the cursor column after the write. *)
Lemma cursor_after_write_not_below_length :
  let v' := (_handle_text VT100Lite_init [ch "a"]).1 in
  is_control (ch "a") = false ∧ ¬ (length (buffer v') ≥ cursor_x v' + 1).
Proof. vm_compute. split; [reflexivity|lia]. Qed.

(** ** [flush] *)

Lemma flush_state (v : VT100Lite) : (flush v).1 = v.
Proof. unfold flush. by destruct (buffer v). Qed.

(** C10: [flush] returns the state it was given, so a second [flush]
    returns the same lines as the first, which for a buffer that is not
    empty is the one trimmed line. With nothing held back, the [finally]
    block therefore writes the line of such a buffer twice, as in the
    session whose whole output is [$ exit]. *)
Theorem flush_leaves_state :
  (∀ v, (flush v).1 = v)
  ∧ (∀ v, (flush (flush v).1).2 = (flush v).2)
  ∧ (∀ x c b a p l,
       (flush (mkVT x (c :: b) a p l)).2 = [Py.rstrip (c :: b)])
  ∧ (∀ x c b a p l file,
       finally_block (mkSession (mkVT x (c :: b) a p l) [] file)
       = (mkSession (mkVT x (c :: b) a p l) []
            (file ++ [Py.rstrip (c :: b); Py.rstrip (c :: b)]),
          [Py.rstrip (c :: b); Py.rstrip (c :: b)]))
  ∧ main [of_string "$ exit"] = [of_string "$ exit"; of_string "$ exit"].
Proof.
  split; [exact flush_state|]. split; [by intros v; rewrite flush_state|].
  split; [done|]. split; [done|]. vm_compute. reflexivity.
Qed.

(** ** Deduplication *)

(** In the loop a line equal to the last logged one is skipped. *)
Lemma log_line_twice (v : VT100Lite) (file : list str) (line : str) :
  last_logged_line v ≠ Some line →
  foldl log_line (v, file) [line; line]
  = (set_last_logged_line (Some line) v, file ++ [line]).
Proof.
  intros Hne. cbn. destruct (last_logged_line v) as [l|] eqn:Hl; cbn.
  - destruct (str_eqb line l) eqn:E.
    + exfalso. apply Hne. f_equal. clear -E.
      revert l E. induction line as [|x line IH]; intros [|y l]; cbn; try done.
      intros (->%N.eqb_eq & ->%IH)%andb_true_iff. done.
    + cbn. replace (str_eqb line line) with true; [done|].
      clear. induction line; cbn; [done|]. by rewrite N.eqb_refl.
  - replace (str_eqb line line) with true; [done|].
    clear. induction line; cbn; [done|]. by rewrite N.eqb_refl.
Qed.

(** C2 at the session whose whole output is [ok], with no line end: the
    state machine produces the line [ok] twice in a row, both in the
    [finally] block, and the clean log gets two records for it. *)
Theorem final_flush_logged_twice :
  (session_run Session_init [of_string "ok"]).2 = [of_string "ok"; of_string "ok"]
  ∧ main [of_string "ok"] = [of_string "ok"; of_string "ok"].
Proof. split; vm_compute; reflexivity. Qed.

(** ** The chunk boundary buffer *)

Lemma rfind_None (c : char) (s : str) :
  Py.rfind c s = None ↔ c ∉ s.
Proof.
  induction s as [|x s IH]; cbn.
  - split; [intros _; apply not_elem_of_nil|done].
  - rewrite not_elem_of_cons. destruct (Py.rfind c s) as [k|].
    + split; [done|]. intros [_ H]. by apply IH in H.
    + destruct (N.eqb_spec x c) as [->|Hne].
      * split; [done|]. by intros [? _].
      * split; [|done]. intros _. split; [congruence|]. by apply IH.
Qed.

Lemma rfind_Some (c : char) (s : str) (k : nat) :
  Py.rfind c s = Some k ↔ last_index_of c s k.
Proof.
  unfold last_index_of. revert k. induction s as [|x s IH]; intros k; cbn.
  - split; [done|]. by intros [? _].
  - destruct (Py.rfind c s) as [k'|] eqn:Hr.
    + pose proof (proj1 (IH k') eq_refl) as [Hk' Hlast].
      split.
      * intros [= <-]. split; [done|]. intros [|j] ?; [lia|]. apply Hlast. lia.
      * intros [Hk Hl]. destruct k as [|k].
        -- exfalso. apply (Hl (S k')); [lia|done].
        -- f_equal. assert (Some k' = Some k) as [= ->]; [|done].
           apply IH. split; [done|]. intros j ?. apply (Hl (S j)). lia.
    + apply rfind_None in Hr. split.
      * destruct (N.eqb_spec x c) as [->|]; [|done]. intros [= <-].
        split; [done|]. intros [|j] ? Hj; [lia|].
        apply Hr. eapply list_elem_of_lookup_2, Hj.
      * intros [Hk _]. destruct k as [|k].
        -- cbn in Hk. injection Hk as ->. by rewrite N.eqb_refl.
        -- exfalso. apply Hr. eapply list_elem_of_lookup_2, Hk.
Qed.

Lemma process_nil (v : VT100Lite) : process v [] = (v, []).
Proof. reflexivity. Qed.

(** C4: what the boundary buffer does with the pending text [p] and the
    new text [t]. Without an escape character in [p ++ t] all of it is
    released and nothing stays pending. With the last escape character
    at index [k], all of it is released when [length (p ++ t) - k > 256],
    and otherwise the part before [k] is released and the part from [k]
    on stays pending. The released text is what [process] is called on. *)
Theorem boundary_buffer (st : Session) (t : str) :
  let buf := clean_log_buffer st ++ t in
  (ESC ∉ buf → hold_back buf = (buf, []))
  ∧ (∀ k, last_index_of ESC buf k →
       hold_back buf
       = if (256 <? length buf - k)%nat then (buf, []) else (take k buf, drop k buf))
  ∧ clean_log_buffer (on_output st t).1 = (hold_back buf).2
  ∧ (on_output st t).2 = (process (vt st) (hold_back buf).1).2.
Proof.
  intros buf. split; [|split; [|split]].
  - intros H%rfind_None. unfold hold_back. by rewrite H.
  - intros k H%rfind_Some. unfold hold_back. by rewrite H.
  - unfold on_output. fold buf. destruct (hold_back buf) as [[|c P] R]; [done|].
    destruct (process _ _) as [v lines]. by destruct (foldl _ _ _).
  - unfold on_output. fold buf. destruct (hold_back buf) as [[|c P] R]; [done|].
    cbn [fst]. destruct (process _ _) as [v lines]. by destruct (foldl _ _ _).
Qed.

Lemma boundary_buffer_witness :
  ((ESC ∉ of_string "ab" ++ of_string "cd")
   ∧ hold_back (of_string "ab" ++ of_string "cd") = (of_string "abcd", []))
  ∧ (last_index_of ESC (of_string "ab" ++ ESC :: of_string "[1") 2
     ∧ hold_back (of_string "ab" ++ ESC :: of_string "[1")
       = (of_string "ab", ESC :: of_string "[1")).
Proof.
  split; split.
  - apply rfind_None. reflexivity.
  - apply (proj1 (boundary_buffer (mkSession VT100Lite_init (of_string "ab") [])
                    (of_string "cd"))).
    apply rfind_None. reflexivity.
  - apply rfind_Some. reflexivity.
  - apply (proj1 (proj2 (boundary_buffer
                    (mkSession VT100Lite_init (of_string "ab") [])
                    (ESC :: of_string "[1"))) 2).
    apply rfind_Some. reflexivity.
Defined.

(** ** Text without tokens *)

Section Handlers.

Implicit Types (v : VT100Lite) (out : list str) (c : char) (text : str).

(** The handlers only add lines at the end of the list they are given. *)
Lemma break_line_out v out :
  break_line v out = ((break_line v []).1, out ++ (break_line v []).2).
Proof. unfold break_line. destruct (Py.rstrip _); cbn; by rewrite ?app_nil_r. Qed.

Lemma handle_char_out v out c :
  handle_char (v, out) c
  = ((handle_char (v, []) c).1, out ++ (handle_char (v, []) c).2).
Proof.
  unfold handle_char.
  repeat match goal with
         | |- context [if ?b then _ else _] => destruct b
         end; cbn [fst snd]; rewrite ?app_nil_r; try done; apply break_line_out.
Qed.

Lemma handle_text_out v out text :
  foldl handle_char (v, out) text
  = ((_handle_text v text).1, out ++ (_handle_text v text).2).
Proof.
  unfold _handle_text. induction text as [|c text IH] using rev_ind.
  - cbn. by rewrite app_nil_r.
  - rewrite !foldl_snoc, IH.
    destruct (foldl handle_char (v, []) text) as [v1 l1]. cbn [fst snd].
    rewrite (handle_char_out v1 (out ++ l1)), (handle_char_out v1 l1).
    cbn [fst snd]. by rewrite app_assoc.
Qed.

Lemma handle_text_app v text1 text2 :
  _handle_text v (text1 ++ text2)
  = ((_handle_text (_handle_text v text1).1 text2).1,
     (_handle_text v text1).2 ++ (_handle_text (_handle_text v text1).1 text2).2).
Proof.
  unfold _handle_text at 1. rewrite foldl_app. fold (_handle_text v text1).
  destruct (_handle_text v text1) as [v1 l1]. apply handle_text_out.
Qed.

(** A text part that does not start with an escape character goes
    through [_handle_text]. *)
Lemma handle_part_text v out c text :
  c ≠ ESC →
  handle_part (v, out) (Some (c :: text)) = foldl handle_char (v, out) (c :: text).
Proof.
  intros Hc%N.eqb_neq. unfold handle_part. cbn [Py.startswith]. rewrite Hc. cbn [andb].
  rewrite (handle_text_out v out). by destruct (_handle_text v (c :: text)).
Qed.

End Handlers.

Lemma token_pattern_match_not_esc (c : char) (s : str) :
  c ≠ ESC → token_pattern_match (c :: s) = None.
Proof.
  intros Hc. apply N.eqb_neq in Hc.
  unfold token_pattern_match, match_length. cbn. by rewrite Hc.
Qed.

Lemma matches_nowhere_plain (s : str) : ESC ∉ s → matches_nowhere s = true.
Proof.
  induction s as [|c s IH]; [done|]. intros [? ?]%not_elem_of_cons. cbn [matches_nowhere].
  rewrite token_pattern_match_not_esc by done. auto.
Qed.

Lemma split_scan_matches_nowhere (s text : str) :
  matches_nowhere s = true → split_scan s 0 text = [Some (text ++ s)].
Proof.
  revert text. induction s as [|c s IH]; intros text; cbn [matches_nowhere split_scan].
  - by rewrite app_nil_r.
  - destruct (token_pattern_match (c :: s)); [done|]. intros H.
    by rewrite IH, <-app_assoc.
Qed.

Lemma process_matches_nowhere (v : VT100Lite) (c : char) (s : str) :
  c ≠ ESC → matches_nowhere (c :: s) = true →
  process v (c :: s) = _handle_text v (c :: s).
Proof.
  intros Hc H. unfold process, token_pattern_split.
  rewrite split_scan_matches_nowhere by done. cbn [foldl app].
  by rewrite handle_part_text.
Qed.

Lemma process_plain (v : VT100Lite) (s : str) :
  ESC ∉ s → process v s = _handle_text v s.
Proof.
  destruct s as [|c s]; [done|]. intros H.
  apply process_matches_nowhere; [|by apply matches_nowhere_plain].
  intros ->. apply H. left.
Qed.

(** ** Line feeds *)

Lemma is_plain_spec (c : char) :
  is_plain c = true → c ≠ ESC ∧ c ≠ LF ∧ is_control c = false.
Proof.
  unfold is_plain, is_control, one_of; cbn. rewrite negb_true_iff, !orb_false_iff.
  intros (?%N.eqb_neq & -> & H & -> & -> & _). pose proof H as ->.
  by apply N.eqb_neq in H.
Qed.

Lemma write_at_end (c : char) (b : str) (a p : bool) (l : option str) :
  write c (mkVT (length b) b a p l) = mkVT (length (b ++ [c])) (b ++ [c]) a p l.
Proof.
  unfold write, set_cursor_x, set_buffer; cbn.
  rewrite Nat.leb_refl, Nat.sub_diag, length_app; cbn.
  by rewrite insert_app_r_alt, Nat.sub_diag by lia.
Qed.

(** Plain text typed at the end of the buffer is appended to it. *)
Lemma handle_plain_text (seg b : str) (a p : bool) (l : option str) (out : list str) :
  forallb is_plain seg = true →
  foldl handle_char (mkVT (length b) b a p l, out) seg
  = (mkVT (length (b ++ seg)) (b ++ seg) a p l, out).
Proof.
  revert b. induction seg as [|c seg IH]; intros b; cbn [forallb foldl].
  - by rewrite app_nil_r.
  - intros [Hc Hseg]%andb_true_iff. apply is_plain_spec in Hc as (_ & _ & Hc).
    rewrite handle_char_write, write_at_end, IH by done. by rewrite <-app_assoc.
Qed.

Lemma handle_line_feed (v : VT100Lite) (out : list str) :
  handle_char (v, out) LF = break_line v out.
Proof. reflexivity. Qed.

Lemma handle_segments (segs : list str) (rest : str) (out : list str) :
  forallb (forallb is_plain) segs = true → forallb is_plain rest = true →
  foldl handle_char (VT100Lite_init, out)
    (concat (map (λ seg, seg ++ [LF]) segs) ++ rest)
  = (mkVT (length rest) rest false false None,
     out ++ List.filter nonempty (map Py.rstrip segs)).
Proof.
  intros Hsegs Hrest. revert out Hsegs.
  induction segs as [|seg segs IH]; intros out; cbn [forallb map concat List.filter].
  - intros _. rewrite app_nil_r. by apply (handle_plain_text rest []).
  - intros [Hseg Hsegs]%andb_true_iff.
    rewrite <-!app_assoc, foldl_app. unfold VT100Lite_init at 1.
    rewrite (handle_plain_text seg []) by done. cbn [app foldl].
    rewrite handle_line_feed. unfold break_line; cbn [buffer].
    fold VT100Lite_init. destruct (Py.rstrip seg) eqn:E; cbn [nonempty].
    + by apply IH.
    + rewrite IH by done. by rewrite <-app_assoc.
Qed.

Lemma plain_no_escape (s : str) : forallb is_plain s = true → ESC ∉ s.
Proof.
  induction s as [|c s IH]; cbn; [intros _; apply not_elem_of_nil|].
  intros [Hc%is_plain_spec Hs]%andb_true_iff. apply not_elem_of_cons.
  split; [intros <-; by destruct Hc|auto].
Qed.

(** C7, as the code has it: for plain text interleaved with line feeds,
    fed in the initial state, the emitted lines are the segments that a
    line feed ends, each with trailing whitespace stripped, in order and
    without those that are empty after stripping. The text after the last
    line feed stays in the buffer. *)
Theorem line_feed_segments (segs : list str) (rest : str) :
  forallb (forallb is_plain) segs = true → forallb is_plain rest = true →
  process VT100Lite_init (concat (map (λ seg, seg ++ [LF]) segs) ++ rest)
  = (mkVT (length rest) rest false false None,
     List.filter nonempty (map Py.rstrip segs)).
Proof.
  intros Hsegs Hrest. rewrite process_plain.
  - unfold _handle_text. by rewrite handle_segments.
  - apply not_elem_of_app. split; [|by apply plain_no_escape].
    clear Hrest. induction segs as [|seg segs IH]; cbn in *; [apply not_elem_of_nil|].
    apply andb_true_iff in Hsegs as [Hseg Hsegs].
    rewrite <-app_assoc. apply not_elem_of_app. split; [by apply plain_no_escape|].
    apply not_elem_of_cons. split; [done|auto].
Qed.

Lemma line_feed_segments_witness :
  let segs := [of_string "ls -l  "; of_string "total 0"] in
  (forallb (forallb is_plain) segs = true ∧ forallb is_plain (of_string "$ ") = true)
  ∧ process VT100Lite_init (concat (map (λ seg, seg ++ [LF]) segs) ++ of_string "$ ")
    = (mkVT 2 (of_string "$ ") false false None,
       [of_string "ls -l"; of_string "total 0"]).
Proof.
  split; [split; reflexivity|].
  apply (line_feed_segments [of_string "ls -l  "; of_string "total 0"] (of_string "$ "));
    reflexivity.
Defined.

(** C7, as stated, fails: in [a LF LF b LF] the segments that the line
    feeds end are [a], the empty one and [b], and only [a] and [b] are
    emitted. *)
Lemma empty_segment_not_emitted :
  let segs := [of_string "a"; []; of_string "b"] in
  forallb (forallb is_plain) segs = true
  ∧ (process VT100Lite_init (concat (map (λ seg, seg ++ [LF]) segs))).2
    = [of_string "a"; of_string "b"]
  ∧ (process VT100Lite_init (concat (map (λ seg, seg ++ [LF]) segs))).2
    ≠ map Py.rstrip segs.
Proof. repeat split. vm_compute. discriminate. Qed.

(** ** The pattern on complete sequences *)

Section Matching.

Implicit Types (s rest : str) (k : str → option str).

Lemma star_all (p : char → bool) (cs s : str) k (r : str) :
  forallb p cs = true → Regex.star p s k = Some r → Regex.star p (cs ++ s) k = Some r.
Proof.
  intros Hcs Hs. induction cs as [|c cs IH]; [done|].
  cbn in Hcs. apply andb_true_iff in Hcs as [Hc Hcs].
  cbn. by rewrite Hc, IH.
Qed.

Lemma lazy_star_all (p : char → bool) (cs s : str) k :
  forallb p cs = true → (∀ c s', c ∈ cs → k (c :: s') = None) →
  Regex.lazy_star p (cs ++ s) k = Regex.lazy_star p s k.
Proof.
  intros Hcs Hk. induction cs as [|c cs IH]; [done|].
  cbn in Hcs. apply andb_true_iff in Hcs as [Hc Hcs].
  cbn. rewrite Hk, Hc by left. apply IH; [done|]. intros. apply Hk. by right.
Qed.

Lemma csi_final_not_param (c : char) : csi_final c = true → csi_param c = false.
Proof.
  unfold csi_final, csi_param, in_range, one_of. cbn [existsb]. eval_ch.
  intros [?%N.leb_le ?%N.leb_le]%andb_true_iff.
  destruct (N.leb_spec 48 c), (N.leb_spec c 57), (N.eqb_spec c 59), (N.eqb_spec c 63);
    cbn; try done; lia.
Qed.

Lemma length_app_sub (t rest : str) : length (t ++ rest) - length rest = length t.
Proof. rewrite length_app. lia. Qed.

Lemma match_csi (params : str) (final : char) rest :
  item_ok (Csi params final) = true →
  match_length csi_pattern (render (Csi params final) ++ rest)
  = Some (length (render (Csi params final))).
Proof.
  cbn [item_ok]. intros [Hps Hf]%andb_true_iff.
  unfold match_length. replace (Regex.run _ _ _) with (Some rest).
  { by rewrite length_app_sub. }
  cbn [render app]. cbn. rewrite <-app_assoc. symmetry. apply star_all; [done|].
  cbn. by rewrite (csi_final_not_param final), Hf.
Qed.

Lemma match_osc (digits text : str) rest :
  item_ok (Osc digits text) = true →
  match_length osc_pattern (render (Osc digits text) ++ rest)
  = Some (length (render (Osc digits text))).
Proof.
  cbn [item_ok]. intros [Hds Htext]%andb_true_iff.
  unfold match_length. replace (Regex.run _ _ _) with (Some rest).
  { by rewrite length_app_sub. }
  cbn [render app]. cbn. rewrite <-app_assoc. symmetry. apply star_all; [done|].
  cbn. rewrite <-app_assoc, lazy_star_all.
  - reflexivity.
  - eapply forallb_forall. intros c Hc. rewrite forallb_forall in Htext.
    apply Htext in Hc. unfold osc_text in Hc. by destruct (dot c).
  - intros c s' Hc%list_elem_of_In. rewrite forallb_forall in Htext.
    apply Htext in Hc. unfold osc_text in Hc.
    apply andb_true_iff in Hc as [[_ Hb]%andb_true_iff He].
    apply negb_true_iff in Hb, He. by rewrite Hb, He.
Qed.

(** The second character of a two-character escape is neither bracket. *)
Lemma short_final_cases (c : char) :
  short_final c = true →
  (c =? ch "[")%N = false ∧ (c =? ch "]")%N = false.
Proof.
  unfold short_final, one_of, of_string. cbn [list_ascii_of_string map existsb].
  rewrite !orb_true_iff.
  intros H. repeat destruct H as [H|H]; try done; apply N.eqb_eq in H; by subst c.
Qed.

Lemma match_short (c : char) rest :
  item_ok (Short c) = true →
  match_length csi_pattern (render (Short c) ++ rest) = None
  ∧ match_length osc_pattern (render (Short c) ++ rest) = None
  ∧ match_length short_pattern (render (Short c) ++ rest) = Some 2.
Proof.
  cbn [item_ok]. intros Hc. destruct (short_final_cases c Hc) as [H1 H2].
  unfold match_length. cbn. rewrite H1, H2, Hc. repeat split. f_equal. lia.
Qed.

Lemma token_pattern_match_item (it : item) rest :
  item_ok it = true → (∀ c, it ≠ Plain c) →
  token_pattern_match (render it ++ rest) = Some (groups_of it, length (render it)).
Proof.
  intros Hok Hit. unfold token_pattern_match. destruct it as [c|ps f|ds text|c].
  - by destruct (Hit c).
  - rewrite match_csi by done. by rewrite take_app_length.
  - rewrite match_osc by done. by rewrite take_app_length.
  - destruct (match_short c rest Hok) as (-> & -> & ->). done.
Qed.

Lemma split_scan_skip (t s text : str) :
  split_scan (t ++ s) (length t) text = split_scan s 0 text.
Proof. induction t as [|c t IH]; [done|]. cbn. apply IH. Qed.

End Matching.

(** ** [process] on a well-formed stream *)

Section Streams.

Implicit Types (v : VT100Lite) (out : list str) (items : list item) (text : str).

Lemma handle_part_plain v out text :
  ESC ∉ text → handle_part (v, out) (Some text) = foldl handle_char (v, out) text.
Proof.
  destruct text as [|c text]; [done|]. intros H. apply handle_part_text.
  intros ->. apply H. left.
Qed.

(** The groups of an item go through [handle_part] as the item goes
    through [exec_item]. *)
Lemma handle_groups (acc : VT100Lite * list str) (it : item) :
  item_ok it = true → (∀ c, it ≠ Plain c) →
  foldl handle_part acc (groups_of it) = exec_item acc it.
Proof.
  intros Hok Hit. destruct acc as [v out]. destruct it as [c|ps f|ds text|c].
  - by destruct (Hit c).
  - reflexivity.
  - reflexivity.
  - destruct (short_final_cases c Hok) as [H1 H2].
    cbn [groups_of render foldl handle_part exec_item Py.startswith].
    by rewrite H1, H2, N.eqb_refl.
Qed.

(** On a well-formed stream [process] runs the items one by one. *)
Lemma scan_stream items text v out :
  forallb item_ok items = true → ESC ∉ text →
  foldl handle_part (v, out) (split_scan (stream items) 0 text)
  = foldl exec_item (foldl handle_char (v, out) text) items.
Proof.
  revert text v out. induction items as [|it items IH]; intros text v out Hok Htext.
  - cbn. by apply handle_part_plain.
  - cbn in Hok. apply andb_true_iff in Hok as [Hit Hok].
    unfold stream. cbn [map concat]. fold (stream items).
    assert ((∃ c, it = Plain c) ∨ (∀ c, it ≠ Plain c)) as [[c ->]|Hne]
      by (destruct it; eauto).
    + cbn in Hit. apply negb_true_iff, N.eqb_neq in Hit.
      cbn [render app split_scan]. rewrite token_pattern_match_not_esc by done.
      rewrite IH; [by rewrite foldl_snoc|done|].
      apply not_elem_of_app. split; [done|]. apply not_elem_of_cons.
      split; [done|apply not_elem_of_nil].
    + pose proof (token_pattern_match_item it (stream items) Hit Hne) as Hm.
      destruct (render it) as [|e body] eqn:Hr.
      { destruct it; [by destruct (Hne c)|done..]. }
      cbn [app split_scan]. cbn [app] in Hm. rewrite Hm.
      replace (length (e :: body) - 1) with (length body) by (cbn; lia).
      rewrite split_scan_skip.
      cbn [foldl]. rewrite foldl_app, handle_part_plain, handle_groups by done.
      destruct (exec_item _ it) as [v1 out1].
      rewrite IH by (done || apply not_elem_of_nil). done.
Qed.

Lemma process_stream v items :
  forallb item_ok items = true →
  process v (stream items) = foldl exec_item (v, []) items.
Proof.
  intros Hok. unfold process, token_pattern_split.
  rewrite scan_stream by (done || apply not_elem_of_nil). done.
Qed.

End Streams.

(** ** Feeding a stream in two pieces *)

Section Pieces.

Implicit Types (v : VT100Lite) (out file lines : list str) (items : list item).

Lemma handle_csi_out v (seq : str) out :
  _handle_csi v seq out
  = ((_handle_csi v seq []).1, out ++ (_handle_csi v seq []).2).
Proof.
  unfold _handle_csi.
  repeat match goal with
         | |- context [if ?b then _ else _] => destruct b
         | |- context [match Py.int ?s with _ => _ end] => destruct (Py.int s)
         end; cbn [fst snd]; rewrite ?app_nil_r; try done; apply break_line_out.
Qed.

Lemma exec_item_out v out (it : item) :
  exec_item (v, out) it = ((exec_item (v, []) it).1, out ++ (exec_item (v, []) it).2).
Proof.
  destruct it; cbn [exec_item fst snd]; rewrite ?app_nil_r; try done.
  - apply handle_char_out.
  - apply handle_csi_out.
Qed.

Lemma exec_out v out items :
  foldl exec_item (v, out) items = ((exec v items).1, out ++ (exec v items).2).
Proof.
  unfold exec. induction items as [|it items IH] using rev_ind.
  - cbn. by rewrite app_nil_r.
  - rewrite !foldl_snoc, IH.
    destruct (foldl exec_item (v, []) items) as [v1 l1]. cbn [fst snd].
    rewrite (exec_item_out v1 (out ++ l1)), (exec_item_out v1 l1).
    cbn [fst snd]. by rewrite app_assoc.
Qed.

Lemma exec_app v items1 items2 :
  exec v (items1 ++ items2)
  = ((exec (exec v items1).1 items2).1,
     (exec v items1).2 ++ (exec (exec v items1).1 items2).2).
Proof.
  unfold exec at 1. rewrite foldl_app. fold (exec v items1).
  destruct (exec v items1) as [v1 l1]. apply exec_out.
Qed.

(** The state machine neither reads nor writes [last_logged_line]. *)
Lemma exec_item_last_logged v out (l : option str) (it : item) :
  exec_item (set_last_logged_line l v, out) it
  = (set_last_logged_line l (exec_item (v, out) it).1, (exec_item (v, out) it).2).
Proof.
  destruct v as [x b a p l0].
  destruct it as [c|ps f| |]; cbn [exec_item fst snd]; try done.
  - unfold handle_char, break_line, set_last_logged_line, set_cursor_x, set_buffer; cbn.
    repeat match goal with
           | |- context [if ?b then _ else _] => destruct b
           end; reflexivity.
  - unfold _handle_csi, break_line, set_last_logged_line, set_cursor_x, set_buffer,
      set_in_alt_screen, set_bracketed_paste_mode; cbn [cursor_x buffer in_alt_screen
      bracketed_paste_mode last_logged_line].
    repeat match goal with
           | |- context [if ?b then _ else _] => destruct b
           | |- context [match Py.int ?s with _ => _ end] => destruct (Py.int s)
           end; reflexivity.
Qed.

Lemma exec_last_logged v (l : option str) items :
  exec (set_last_logged_line l v) items
  = (set_last_logged_line l (exec v items).1, (exec v items).2).
Proof.
  unfold exec. induction items as [|it items IH] using rev_ind; [done|].
  rewrite !foldl_snoc, IH. destruct (foldl exec_item (v, []) items) as [v1 l1].
  apply exec_item_last_logged.
Qed.

Lemma log_lines v file lines :
  foldl log_line (v, file) lines
  = (set_last_logged_line (logged (last_logged_line v) lines).1 v,
     file ++ (logged (last_logged_line v) lines).2).
Proof.
  unfold logged. induction lines as [|line lines IH] using rev_ind.
  - cbn. rewrite app_nil_r. by destruct v.
  - rewrite !foldl_snoc, IH.
    destruct (foldl _ (last_logged_line v, []) lines) as [last written].
    unfold log_line. cbn [fst snd last_logged_line set_last_logged_line].
    destruct (match last with Some l => str_eqb line l | None => false end);
      cbn [fst snd]; [done|]. by rewrite app_assoc.
Qed.

Lemma logged_app (last : option str) lines1 lines2 :
  logged last (lines1 ++ lines2)
  = ((logged (logged last lines1).1 lines2).1,
     (logged last lines1).2 ++ (logged (logged last lines1).1 lines2).2).
Proof.
  induction lines2 as [|line lines2 IH] using rev_ind.
  - rewrite app_nil_r.
    change (logged (logged last lines1).1 []) with ((logged last lines1).1, @nil str).
    cbn [fst snd]. rewrite app_nil_r. by destruct (logged last lines1).
  - rewrite app_assoc. unfold logged in *. rewrite !foldl_snoc, IH.
    destruct (foldl _ (last, []) lines1) as [last1 written1]. cbn [fst snd].
    destruct (foldl _ (last1, []) lines2) as [last2 written2]. cbn [fst snd].
    destruct (match last2 with Some l => str_eqb line l | None => false end);
      cbn [fst snd]; [done|]. by rewrite app_assoc.
Qed.

Lemma exec_keeps_last_logged v items :
  last_logged_line (exec v items).1 = last_logged_line v.
Proof.
  destruct v as [x b a p l].
  pose proof (exec_last_logged (mkVT x b a p None) l items) as H.
  unfold set_last_logged_line in H at 1. cbn in H. rewrite H. done.
Qed.

Lemma emulate_and_log_app v file items1 items2 :
  forallb item_ok items1 = true → forallb item_ok items2 = true →
  emulate_and_log v file (stream items1 ++ stream items2)
  = (let '(v1, file1, lines1) := emulate_and_log v file (stream items1) in
     let '(v2, file2, lines2) := emulate_and_log v1 file1 (stream items2) in
     (v2, file2, lines1 ++ lines2)).
Proof.
  intros Hok1 Hok2. unfold emulate_and_log.
  replace (stream items1 ++ stream items2) with (stream (items1 ++ items2))
    by (unfold stream; by rewrite map_app, concat_app).
  rewrite !process_stream by (done || by rewrite forallb_app, Hok1, Hok2).
  fold (exec v (items1 ++ items2)) (exec v items1). rewrite exec_app.
  pose proof (exec_keeps_last_logged v items1) as Hl1.
  destruct (exec v items1) as [v1 l1]. cbn [fst snd] in *.
  rewrite !log_lines. rewrite process_stream by done.
  fold (exec (set_last_logged_line (logged (last_logged_line v1) l1).1 v1) items2).
  rewrite exec_last_logged.
  pose proof (exec_keeps_last_logged v1 items2) as Hl2.
  destruct (exec v1 items2) as [v2 l2]. cbn [fst snd] in *.
  rewrite !log_lines. cbn [last_logged_line set_last_logged_line].
  rewrite logged_app, Hl2. cbn [fst snd]. by rewrite app_assoc.
Qed.

End Pieces.

(** ** Character classes and the escape character *)

Lemma not_in_class (p : char → bool) (cs : str) :
  forallb p cs = true → p ESC = false → ESC ∉ cs.
Proof.
  intros Hcs Hp Hin%list_elem_of_In. rewrite forallb_forall in Hcs.
  apply Hcs in Hin. congruence.
Qed.

(** ** The loop body on the released text *)

Lemma on_output_eq (st : Session) (text : str) :
  on_output st text
  = (let '(P, R) := hold_back (clean_log_buffer st ++ text) in
     let '(v, file, lines) := emulate_and_log (vt st) (clean_file st) P in
     (mkSession v R file, lines)).
Proof.
  unfold on_output, emulate_and_log.
  destruct (hold_back _) as [[|c P] R]; [done|].
  destruct (process _ _) as [v lines]. by destruct (foldl _ _ _).
Qed.

(** ** What a match consumes *)

Section Coverage.

Implicit Types (s rest : str) (k : str → option str).

(** A match leaves a suffix of the input to the continuation. *)
Lemma star_suffix (p : char → bool) s k rest :
  Regex.star p s k = Some rest → ∃ s1, k s1 = Some rest ∧ length s1 ≤ length s.
Proof.
  induction s as [|c s IH]; cbn.
  - eauto.
  - destruct (p c); [|eauto]. destruct (Regex.star p s k) as [r|] eqn:E.
    + intros [= ->]. destruct (IH eq_refl) as (s1 & ? & ?).
      exists s1. split; [done|cbn; lia].
    + eauto.
Qed.

Lemma lazy_star_suffix (p : char → bool) s k rest :
  Regex.lazy_star p s k = Some rest → ∃ s1, k s1 = Some rest ∧ length s1 ≤ length s.
Proof.
  induction s as [|c s IH]; cbn.
  - destruct (k []) eqn:E; [|done]. intros [= ->]. eauto.
  - destruct (k (c :: s)) eqn:E.
    + intros [= ->]. eauto.
    + destruct (p c); [|done]. intros (s1 & ? & ?)%IH.
      exists s1. split; [done|cbn; lia].
Qed.

Lemma run_suffix (r : Regex.t) s k rest :
  Regex.run r s k = Some rest → ∃ s1, k s1 = Some rest ∧ length s1 ≤ length s.
Proof.
  revert s k. induction r as [c|p|r1 IH1 r2 IH2|r1 IH1 r2 IH2|p|p]; intros s k; cbn.
  - destruct s as [|x s]; [done|]. destruct (x =? c)%N; [|done].
    intros H. exists s. split; [done|cbn; lia].
  - destruct s as [|x s]; [done|]. destruct (p x); [|done].
    intros H. exists s. split; [done|cbn; lia].
  - intros (s1 & (s2 & ? & ?)%IH2 & ?)%IH1. exists s2. split; [done|lia].
  - destruct (Regex.run r1 s k) eqn:E.
    + intros [= ->]. eauto.
    + eauto.
  - apply star_suffix.
  - apply lazy_star_suffix.
Qed.

(** A pattern that starts with the escape character: its matches start
    with one and are not empty. *)
Lemma match_length_escape (r : Regex.t) s (n : nat) :
  match_length (Lit ESC ⋅ r) s = Some n →
  (∃ s', s = ESC :: s') ∧ 1 ≤ n ≤ length s.
Proof.
  unfold match_length. cbn. destruct s as [|x s]; [done|].
  destruct (N.eqb_spec x ESC) as [->|]; [|done].
  destruct (Regex.run r s Some) as [rest|] eqn:E; [|done].
  apply run_suffix in E as (s1 & [= ->] & ?). intros [= <-].
  split; [eauto|]. cbn. lia.
Qed.

Lemma token_pattern_match_inv s (groups : list (option str)) (n : nat) :
  token_pattern_match s = Some (groups, n) →
  (∃ s', s = ESC :: s') ∧ 1 ≤ n ≤ length s ∧ pieces groups = [take n s].
Proof.
  unfold token_pattern_match.
  destruct (match_length csi_pattern s) as [n1|] eqn:E1.
  { intros [= <- <-]. apply match_length_escape in E1 as [? ?]. done. }
  destruct (match_length osc_pattern s) as [n2|] eqn:E2.
  { intros [= <- <-]. apply match_length_escape in E2 as [? ?]. done. }
  destruct (match_length short_pattern s) as [n3|] eqn:E3; [|done].
  intros [= <- <-]. apply match_length_escape in E3 as [? ?]. done.
Qed.

Lemma pieces_cons (x : str) (parts : list (option str)) :
  pieces (Some x :: parts) = x :: pieces parts.
Proof. reflexivity. Qed.

Lemma pieces_app (parts1 parts2 : list (option str)) :
  pieces (parts1 ++ parts2) = pieces parts1 ++ pieces parts2.
Proof. apply omap_app. Qed.

Lemma split_scan_pieces s (skip : nat) (text : str) :
  concat (pieces (split_scan s skip text)) = text ++ drop skip s.
Proof.
  revert skip text. induction s as [|c s IH]; intros skip text.
  - cbn. by rewrite drop_nil, !app_nil_r.
  - cbn [split_scan]. destruct skip as [|skip]; [|apply IH].
    destruct (token_pattern_match (c :: s)) as [[groups n]|] eqn:E.
    + apply token_pattern_match_inv in E as (_ & Hn & Hg).
      rewrite pieces_cons, pieces_app, Hg. cbn [concat app].
      rewrite IH. f_equal. destruct n as [|n]; [lia|].
      replace (S n - 1) with n by lia. cbn [take drop app].
      by rewrite take_drop.
    + rewrite IH. cbn. by rewrite <-app_assoc.
Qed.

End Coverage.

(** ** The parts of a split, by position *)

Section Scan.

Implicit Types (s text part : str) (parts : list (option str)) (i : nat).

Lemma token_pattern_match_groups s (groups : list (option str)) (n : nat) :
  token_pattern_match s = Some (groups, n) →
  groups = [Some (take n s); None; None]
  ∨ groups = [None; Some (take n s); None]
  ∨ groups = [None; None; Some (take n s)].
Proof.
  unfold token_pattern_match.
  destruct (match_length csi_pattern s); [intros [= <- <-]; auto|].
  destruct (match_length osc_pattern s); [intros [= <- <-]; auto|].
  destruct (match_length short_pattern s); [intros [= <- <-]; auto|done].
Qed.

(** [split_scan] scans from left to right: its text parts hold no
    position where the pattern matches. *)
Lemma split_scan_scanned (n : nat) s text :
  length s ≤ n →
  (∀ j, j < length text → token_pattern_match (drop j (text ++ s)) = None) →
  scanned (text ++ s) (split_scan s 0 text).
Proof.
  revert s text. induction n as [|n IH]; intros s text Hn Htext.
  - destruct s; [|cbn in Hn; lia]. cbn. rewrite app_nil_r in *. by constructor.
  - destruct s as [|c s].
    { cbn. rewrite app_nil_r in *. by constructor. }
    cbn [split_scan].
    destruct (token_pattern_match (c :: s)) as [[groups m]|] eqn:E.
    + pose proof (token_pattern_match_inv _ _ _ E) as (_ & Hm & _).
      destruct m as [|m]; [lia|]. cbn [length] in Hm, Hn.
      replace (S m - 1) with m by lia.
      assert (length (take m s) = m) as Hlen by (rewrite length_take; lia).
      replace (split_scan s m []) with (split_scan (drop m s) 0 [])
        by (by rewrite <-(split_scan_skip (take m s)), Hlen, take_drop).
      assert (c :: s = (c :: take m s) ++ drop m s) as Hs
        by (cbn; by rewrite take_drop).
      rewrite Hs. apply scanned_match.
      * intros j Hj. rewrite <-Hs. by apply Htext.
      * rewrite <-Hs. cbn [length]. by rewrite Hlen.
      * apply (IH (drop m s) []); [rewrite length_drop; lia|].
        cbn. intros j Hj. lia.
    + replace (text ++ c :: s) with ((text ++ [c]) ++ s) by (by rewrite <-app_assoc).
      apply IH; [cbn in Hn; lia|]. intros j Hj. rewrite <-app_assoc. cbn [app].
      rewrite length_app in Hj. cbn in Hj.
      destruct (decide (j < length text)) as [?|?]; [by apply Htext|].
      replace j with (length text) by lia. by rewrite drop_app_length.
Qed.

Lemma split_is_scanned (chunk : str) : scanned chunk (token_pattern_split chunk).
Proof.
  apply (split_scan_scanned (length chunk) chunk []); [done|].
  cbn. intros j Hj. lia.
Qed.

Lemma is_text_index_add4 (n : nat) :
  is_text_index (S (S (S (S n)))) = is_text_index n.
Proof.
  unfold is_text_index. replace (S (S (S (S n)))) with (n + 1 * 4) by lia.
  by rewrite Nat.Div0.mod_add.
Qed.

(** A part that is no text part starts where the pattern matches. *)
Lemma scanned_part s parts parts1 part parts2 :
  scanned s parts → parts = parts1 ++ Some part :: parts2 →
  is_text_index (length parts1) = true
  ∨ is_Some (token_pattern_match (drop (start_of parts1) s)).
Proof.
  intros Hscan. revert parts1.
  induction Hscan as [text Htext|text tok rest groups parts Htext Htok Hscan IH];
    intros parts1 Hparts.
  - destruct parts1 as [|p parts1]; [by left|].
    injection Hparts as _ Hparts. by destruct parts1.
  - destruct parts1 as [|p parts1]; [by left|].
    injection Hparts as <- Hparts.
    assert (∀ k, drop (length text + k) (text ++ tok ++ rest) = drop k (tok ++ rest))
      as Hdrop by (intros k; by rewrite drop_app_add).
    assert (is_Some (token_pattern_match (drop (length text + 0) (text ++ tok ++ rest))))
      as Hhere by (rewrite Hdrop, drop_0, Htok; by eexists).
    rewrite Nat.add_0_r in Hhere.
    pose proof (token_pattern_match_groups _ _ _ Htok) as Hg.
    rewrite take_app_length in Hg.
    assert (start_of [Some text] = length text) as H0
      by (unfold start_of; cbn; by rewrite app_nil_r).
    destruct parts1 as [|q1 [|q2 [|q3 parts1]]].
    + right. by rewrite H0.
    + right. destruct Hg as [-> | [-> | ->]]; injection Hparts as <- Hparts;
        try done; by rewrite <-H0 in Hhere.
    + right. destruct Hg as [-> | [-> | ->]]; injection Hparts as <- <- Hparts;
        try done; by rewrite <-H0 in Hhere.
    + assert (parts = parts1 ++ Some part :: parts2
              ∧ pieces [q1; q2; q3] = [tok]) as [Hrest Hpieces].
      { destruct Hg as [-> | [-> | ->]]; by injection Hparts as <- <- <- Hparts. }
      destruct (IH parts1 Hrest) as [Hi|Hm].
      * left. cbn [length]. by rewrite is_text_index_add4.
      * right.
        replace (start_of (Some text :: q1 :: q2 :: q3 :: parts1))
          with (length text + (length tok + start_of parts1)).
        { by rewrite Hdrop, drop_app_add. }
        unfold start_of.
        change (Some text :: q1 :: q2 :: q3 :: parts1)
          with ([Some text] ++ [q1; q2; q3] ++ parts1).
        rewrite !pieces_app, Hpieces. cbn. rewrite !length_app. lia.
Qed.

(** Every position of the chunk lies in one part of the split. *)
Lemma part_at parts i :
  i < length (concat (pieces parts)) →
  ∃ parts1 part parts2,
    parts = parts1 ++ Some part :: parts2
    ∧ start_of parts1 ≤ i < start_of parts1 + length part.
Proof.
  revert i. induction parts as [|p parts IH]; intros i Hi; [cbn in Hi; lia|].
  destruct p as [x|].
  - rewrite pieces_cons in Hi. cbn [concat] in Hi. rewrite length_app in Hi.
    destruct (decide (i < length x)) as [?|?].
    + exists [], x, parts. split; [done|]. unfold start_of. cbn. lia.
    + destruct (IH (i - length x)) as (parts1 & part & parts2 & -> & Hpos); [lia|].
      exists (Some x :: parts1), part, parts2. split; [done|].
      unfold start_of in *. rewrite pieces_cons. cbn [concat].
      rewrite length_app. lia.
  - destruct (IH i Hi) as (parts1 & part & parts2 & -> & Hpos).
    by exists (None :: parts1), part, parts2.
Qed.

(** The character of the chunk at a position of a part. *)
Lemma part_lookup (chunk : str) parts1 part parts2 i :
  token_pattern_split chunk = parts1 ++ Some part :: parts2 →
  start_of parts1 ≤ i < start_of parts1 + length part →
  part !! (i - start_of parts1) = chunk !! i.
Proof.
  intros Hsplit Hi.
  assert (concat (pieces (token_pattern_split chunk)) = chunk) as Hc
    by (unfold token_pattern_split; by rewrite split_scan_pieces).
  rewrite <-Hc, Hsplit.
  rewrite pieces_app, pieces_cons, concat_app. cbn [concat].
  unfold start_of in *. rewrite lookup_app_r by lia.
  rewrite lookup_app_l by lia. done.
Qed.

(** The turn of [_handle_text] at which an escape character of the text
    comes writes it at the cursor. *)
Lemma handle_text_escape (acc : VT100Lite * list str) text (k : nat) :
  text !! k = Some ESC →
  foldl handle_char acc text
  = foldl handle_char
      (let '(v, out) := foldl handle_char acc (take k text) in (write ESC v, out))
      (drop (S k) text).
Proof.
  intros Hk. rewrite <-(take_drop_middle text k ESC Hk) at 1.
  rewrite foldl_app. cbn [foldl].
  destruct (foldl handle_char acc (take k text)) as [v out].
  by rewrite handle_char_write.
Qed.

End Scan.

(** ** Escape characters that start no sequence *)

(** C5, as the code has it. In every chunk, an escape character at which
    the pattern does not match gives no token of its own: it lies in one
    part of the split, which is a text part or a match that started
    before it, and [process] treats it with that part. In a part that
    does not start with an escape character, [_handle_text] takes the
    characters in order and writes the escape character into the buffer
    at the cursor like any other character. A part that starts with
    [ESC [] goes to [_handle_csi] as a whole, and a part that starts with
    another escape character is skipped as a whole. *)
Theorem unmatched_escape_shares_its_part (v : VT100Lite) (chunk : str) (i : nat) :
  chunk !! i = Some ESC → token_pattern_match (drop i chunk) = None →
  ∃ (parts1 : list (option str)) (part : str) (parts2 : list (option str)),
    token_pattern_split chunk = parts1 ++ Some part :: parts2
    ∧ start_of parts1 ≤ i < start_of parts1 + length part
    ∧ (is_text_index (length parts1) = true
       ∨ (start_of parts1 < i
          ∧ is_Some (token_pattern_match (drop (start_of parts1) chunk))))
    ∧ process v chunk
      = foldl handle_part
          (handle_part (foldl handle_part (v, []) parts1) (Some part)) parts2
    ∧ (Py.startswith [ESC] part = false →
       ∀ acc, handle_part acc (Some part)
              = foldl handle_char
                  (let '(v', out) :=
                     foldl handle_char acc (take (i - start_of parts1) part) in
                   (write ESC v', out))
                  (drop (S (i - start_of parts1)) part))
    ∧ (Py.startswith [ESC; ch "["] part = true →
       ∀ v' out, handle_part (v', out) (Some part) = _handle_csi v' part out)
    ∧ (Py.startswith [ESC] part = true → Py.startswith [ESC; ch "["] part = false →
       ∀ acc, handle_part acc (Some part) = acc)
    ∧ (∀ v', buffer (write ESC v') !! cursor_x v' = Some ESC).
Proof.
  intros Hi Hno.
  assert (i < length (concat (pieces (token_pattern_split chunk)))) as Hlt.
  { apply lookup_lt_Some in Hi. unfold token_pattern_split.
    by rewrite split_scan_pieces. }
  destruct (part_at _ _ Hlt) as (parts1 & part & parts2 & Hsplit & Hpos).
  exists parts1, part, parts2.
  pose proof (part_lookup chunk _ _ _ i Hsplit Hpos) as Hk. rewrite Hi in Hk.
  split; [done|]. split; [done|]. split; [|split; [|split; [|split; [|split]]]].
  - destruct (scanned_part _ _ _ _ _ (split_is_scanned chunk) Hsplit) as [?|Hm];
      [by left|right]. split; [|done].
    destruct (decide (start_of parts1 = i)) as [Heq|?]; [|lia].
    rewrite Heq, Hno in Hm. by destruct Hm.
  - unfold process. rewrite Hsplit. by rewrite foldl_app.
  - intros Hesc [v' out]. destruct part as [|c part]; [done|].
    cbn [Py.startswith] in Hesc. rewrite andb_true_r in Hesc.
    rewrite handle_part_text by (by apply N.eqb_neq).
    by apply handle_text_escape.
  - intros Hcsi v' out. destruct part as [|c part]; [done|].
    unfold handle_part. by rewrite Hcsi.
  - intros Hesc Hcsi [v' out]. destruct part as [|c part]; [done|].
    unfold handle_part. rewrite Hcsi.
    destruct (Py.startswith [ESC; ch "]"] (c :: part)); [done|]. by rewrite Hesc.
  - intros v'. apply write_spec.
Qed.

Lemma unmatched_escape_shares_its_part_witness :
  let chunk := ch "a" :: ESC :: ch "Z" :: LF :: CSI "m" in
  (chunk !! 1 = Some ESC ∧ token_pattern_match (drop 1 chunk) = None)
  ∧ ∃ (parts1 : list (option str)) (part : str) (parts2 : list (option str)),
      token_pattern_split chunk = parts1 ++ Some part :: parts2
      ∧ start_of parts1 ≤ 1 < start_of parts1 + length part
      ∧ process VT100Lite_init chunk
        = foldl handle_part
            (handle_part (foldl handle_part (VT100Lite_init, []) parts1) (Some part))
            parts2.
Proof.
  intros chunk. split; [split; reflexivity|].
  destruct (unmatched_escape_shares_its_part VT100Lite_init chunk 1)
    as (parts1 & part & parts2 & Hsplit & Hpos & _ & Hprocess & _);
    [reflexivity..|].
  exists parts1, part, parts2. auto.
Defined.

(** C5, as stated, fails. In [a ESC Z LF] the escape character starts no
    sequence, and it is part of the line that is emitted. In
    [ESC Z h i LF] the text after the escape character is consumed with
    it: no line is emitted and the state is as before. *)
Lemma unmatched_escape_reaches_line :
  token_pattern_match (ESC :: ch "Z" :: [LF]) = None
  ∧ (process VT100Lite_init (ch "a" :: ESC :: ch "Z" :: [LF])).2
    = [[ch "a"; ESC; ch "Z"]]
  ∧ ESC ∈ [ch "a"; ESC; ch "Z"]
  ∧ token_pattern_match (ESC :: of_string "Zhi" ++ [LF]) = None
  ∧ process VT100Lite_init (ESC :: of_string "Zhi" ++ [LF]) = (VT100Lite_init, [])
  ∧ (process VT100Lite_init (of_string "Zhi" ++ [LF])).2 = [of_string "Zhi"].
Proof.
  split; [reflexivity|]. split; [reflexivity|]. split; [|repeat split].
  right. left.
Qed.

(** The three cases at work. In [a ESC Z LF ESC [ m] the escape character
    in front of [Z] is written and is part of the line. [ESC [ 2 SP q O K]
    holds no match and starts with [ESC []: it goes to [_handle_csi], which
    reads its last character and erases the line from the cursor on. In
    [ESC ] 0 ; t ESC \ ] the second escape character lies in the match that
    starts at the first, which is ignored. *)
Lemma unmatched_escape_cases (p : bool) (l : option str) :
  process VT100Lite_init (ch "a" :: ESC :: ch "Z" :: LF :: CSI "m")
  = (VT100Lite_init, [[ch "a"; ESC; ch "Z"]])
  ∧ matches_nowhere (CSI "2 qOK") = true
  ∧ process (mkVT 2 (of_string "hello") false p l) (CSI "2 qOK")
    = (mkVT 2 (of_string "he") false p l, [])
  ∧ token_pattern_match (ESC :: of_string "\") = None
  ∧ process (mkVT 2 (of_string "hello") false p l)
      (ESC :: of_string "]0;t" ++ ESC :: of_string "\")
    = (mkVT 2 (of_string "hello") false p l, []).
Proof. repeat split. Qed.

(** ** A stream read in two chunks *)

(** C3 fails in the code on a stream with a window-title sequence that
    ends with [ESC \], the terminator the pattern accepts next to the
    bell: [ESC ] 0 ; t ESC \ x LF ESC [ m]. Read as one chunk, the
    boundary buffer holds back [ESC [ m], the sequence is matched and
    ignored, and the line [x] is completed. Read as the chunks before and
    after position 7, just behind the backslash and two characters behind
    the last escape character of the first chunk, the buffer cuts the
    first chunk in front of the terminator: [ESC ] 0 ; t] is released
    alone and ignored, and the second turn releases [ESC \ x LF], which
    starts with an escape character and is skipped with the line in it.
    The completed lines are [x] against none. The line is lost in the same
    way when the stream comes in one read and nothing follows the line
    feed, while [process] on that text gives the line. *)
Theorem osc_string_terminator_is_cut :
  let title := ESC :: of_string "]0;t" ++ ESC :: of_string "\" in
  let s := title ++ ch "x" :: LF :: CSI "m" in
  token_pattern_match s = Some ([None; Some title; None], 7)
  ∧ split_within_window (take 7 s) = true
  ∧ hold_back (take 7 s) = (ESC :: of_string "]0;t", ESC :: of_string "\")
  ∧ (session_run Session_init [s]).2 = [[ch "x"]]
  ∧ (session_run Session_init [take 7 s; drop 7 s]).2 = []
  ∧ main [s] = [[ch "x"]]
  ∧ main [take 7 s; drop 7 s] = []
  ∧ (process VT100Lite_init (title ++ [ch "x"; LF])).2 = [[ch "x"]]
  ∧ main [title ++ [ch "x"; LF]] = [].
Proof. repeat split. Qed.

(** * Further properties of the engine *)

(** ** The tokenizer covers the chunk *)

(** X1: a chunk without an escape character is one text part, the chunk
    itself, and goes through [_handle_text] as a whole. *)
Theorem plain_chunk_is_one_part (v : VT100Lite) (chunk : str) :
  ESC ∉ chunk →
  token_pattern_split chunk = [Some chunk]
  ∧ process v chunk = _handle_text v chunk.
Proof.
  intros H. split; [|by apply process_plain].
  unfold token_pattern_split. rewrite split_scan_matches_nowhere; [done|].
  by apply matches_nowhere_plain.
Qed.

Lemma plain_chunk_is_one_part_witness :
  (ESC ∉ of_string "ls -l")
  ∧ token_pattern_split (of_string "ls -l") = [Some (of_string "ls -l")].
Proof.
  split; [apply rfind_None; reflexivity|].
  apply (plain_chunk_is_one_part VT100Lite_init (of_string "ls -l")).
  apply rfind_None. reflexivity.
Defined.

(** X2: the parts of a split, put together in order, are the chunk: no
    character is lost or added, whatever the chunk is. *)
Theorem split_covers_chunk (chunk : str) :
  concat (pieces (token_pattern_split chunk)) = chunk.
Proof. unfold token_pattern_split. by rewrite split_scan_pieces. Qed.

(** ** The built-in [int] on the parameters of a CSI sequence *)

Section IntOfParams.

Implicit Types (c : char) (s ds ps : str).

Lemma digit_is_param c : digit c = true → csi_param c = true.
Proof. unfold csi_param, digit. by intros ->. Qed.

Lemma digits_are_params ds : forallb digit ds = true → forallb csi_param ds = true.
Proof.
  rewrite !forallb_forall. intros H c Hc. by apply digit_is_param, H.
Qed.

Lemma decimal_of_digit c : digit c = true → Py.decimal c = Some (Z.of_N (c - ch "0")).
Proof.
  unfold digit, Py.decimal, Py.decimal_zeros. cbn [List.find]. eval_ch.
  change (0x30 + 9)%N with 57%N. by intros ->.
Qed.

Lemma param_cases c :
  csi_param c = true →
  Py.int_blank c = false ∧ (c =? ch "-")%N = false ∧ (c =? ch "+")%N = false.
Proof.
  unfold csi_param, Py.int_blank, in_range, one_of. cbn [existsb]. eval_ch.
  intros H.
  destruct (N.leb_spec 48 c), (N.leb_spec c 57), (N.eqb_spec c 59), (N.eqb_spec c 63);
    try done;
    (repeat split;
     [destruct (N.leb_spec 9 c), (N.leb_spec c 13), (N.eqb_spec c 32),
        (N.leb_spec 127 c); cbn; done || lia
     |apply N.eqb_neq; lia..]).
Qed.

Lemma skip_blanks_params ps : forallb csi_param ps = true → Py.skip_blanks ps = ps.
Proof.
  destruct ps as [|c ps]; [done|]. cbn. intros [Hc _]%andb_true_iff.
  by destruct (param_cases c Hc) as (-> & _).
Qed.

Lemma int_of_params ps :
  forallb csi_param ps = true →
  Py.int ps = match ps with [] => None | _ => Py.int_unsigned ps end.
Proof.
  intros Hps. unfold Py.int. rewrite (skip_blanks_params ps) by done.
  rewrite skip_blanks_params, rev_involutive.
  - destruct ps as [|c ps]; [done|]. cbn in Hps.
    apply andb_true_iff in Hps as [Hc _].
    by destruct (param_cases c Hc) as (_ & -> & ->).
  - rewrite forallb_forall in *. intros c Hc%in_rev. auto.
Qed.

Lemma int_digits_of_digits ds (acc n : nat) (after_digit : bool) :
  forallb digit ds = true → ds ≠ [] ∨ after_digit = true →
  Py.int_digits ds (Z.of_nat acc) n after_digit
  = Some (Z.of_nat (foldl (λ a c, 10 * a + N.to_nat (c - ch "0")) acc ds),
          n + length ds).
Proof.
  revert acc n after_digit. induction ds as [|c ds IH]; intros acc n b Hds Hne.
  - destruct Hne as [?| ->]; [done|]. cbn. do 2 f_equal. lia.
  - cbn in Hds. apply andb_true_iff in Hds as [Hc Hds].
    cbn [Py.int_digits foldl length]. rewrite decimal_of_digit by done.
    replace (10 * Z.of_nat acc + Z.of_N (c - ch "0"))%Z
      with (Z.of_nat (10 * acc + N.to_nat (c - ch "0"))) by lia.
    rewrite IH by auto. do 2 f_equal. lia.
Qed.

(** On a string of ASCII digits that is not empty and has at most 4300
    digits, [int] gives the number they stand for. *)
Lemma int_of_digits ds :
  forallb digit ds = true → ds ≠ [] → length ds ≤ Py.max_str_digits →
  Py.int ds = Some (Z.of_nat (digits_value ds)).
Proof.
  intros Hds Hne Hlen. rewrite int_of_params by by apply digits_are_params.
  destruct ds as [|c ds]; [done|]. unfold Py.int_unsigned.
  change (Py.int_digits (c :: ds) 0 0 false)
    with (Py.int_digits (c :: ds) (Z.of_nat 0) 0 false).
  rewrite (int_digits_of_digits (c :: ds) 0 0 false) by auto.
  apply Nat.leb_le in Hlen. by rewrite Nat.add_0_l, Hlen.
Qed.

Lemma int_digits_stops s (acc : Z) (n : nat) (after_digit : bool) c :
  c ∈ s → Py.decimal c = None → (c =? ch "_")%N = false →
  Py.int_digits s acc n after_digit = None.
Proof.
  intros Hin Hd Hu. revert acc n after_digit.
  induction s as [|x s IH]; intros acc n b; [by apply elem_of_nil in Hin|].
  apply elem_of_cons in Hin as [<-|Hin]; cbn.
  - by rewrite Hd, Hu.
  - destruct (Py.decimal x); [auto|].
    destruct ((x =? ch "_")%N && b); auto.
Qed.

(** With a [;] or a [?] among the parameters [int] raises. *)
Lemma int_of_separated ps :
  forallb csi_param ps = true → has_separator ps = true → Py.int ps = None.
Proof.
  intros Hps Hsep. rewrite int_of_params by done.
  destruct ps as [|c0 ps0] eqn:E; [done|]. rewrite <-E in *. clear E.
  unfold has_separator in Hsep. apply existsb_exists in Hsep as (c & Hc & Hsep).
  unfold Py.int_unsigned. rewrite (int_digits_stops ps 0 0 false c); [done|..].
  - by apply list_elem_of_In.
  - unfold one_of in Hsep. cbn in Hsep. rewrite orb_false_r in Hsep.
    apply orb_true_iff in Hsep as [->%N.eqb_eq| ->%N.eqb_eq]; reflexivity.
  - unfold one_of in Hsep. cbn in Hsep. rewrite orb_false_r in Hsep.
    apply orb_true_iff in Hsep as [->%N.eqb_eq| ->%N.eqb_eq]; reflexivity.
Qed.

End IntOfParams.

(** ** CSI sequences by their final character *)

Section CsiSequences.

Implicit Types (v : VT100Lite) (c f : char) (ps ds : str) (out : list str).

Lemma str_eqb_eq (a b : str) : str_eqb a b = true ↔ a = b.
Proof.
  revert b. induction a as [|x a IH]; intros [|y b]; cbn; try done.
  rewrite andb_true_iff, N.eqb_eq, IH. split; [by intros [-> ->]|by intros [= -> ->]].
Qed.

Lemma process_csi v ps f :
  item_ok (Csi ps f) = true →
  process v (ESC :: ch "[" :: ps ++ [f]) = _handle_csi v (ESC :: ch "[" :: ps ++ [f]) [].
Proof.
  intros Hok. pose proof (process_stream v [Csi ps f]) as H.
  unfold stream in H. cbn [map concat render] in H. rewrite app_nil_r in H.
  rewrite H; [done|]. cbn [forallb]. by rewrite Hok.
Qed.

Lemma csi_endswith ps f c : Py.endswith c (ESC :: ch "[" :: ps ++ [f]) = (f =? c)%N.
Proof.
  unfold Py.endswith. change (ESC :: ch "[" :: ps ++ [f]) with ((ESC :: ch "[" :: ps) ++ [f]).
  by rewrite last_snoc.
Qed.

Lemma csi_slice ps f : Py.slice_2_m1 (ESC :: ch "[" :: ps ++ [f]) = ps.
Proof.
  unfold Py.slice_2_m1. change (ESC :: ch "[" :: ps ++ [f]) with ((ESC :: ch "[" :: ps) ++ [f]).
  rewrite take_app_length'; [done|]. rewrite length_app. cbn. lia.
Qed.

Lemma csi_longer_than_3 ps f :
  (3 <? length (ESC :: ch "[" :: ps ++ [f]))%nat = match ps with [] => false | _ => true end.
Proof.
  destruct ps as [|c ps]; [done|]. apply Nat.ltb_lt. cbn. rewrite length_app. cbn. lia.
Qed.

Lemma csi_is_mode_sequence ps f (name : string) :
  In (of_string name)
     (map (λ m, m ++ [ch "h"]) mode_params ++ map (λ m, m ++ [ch "l"]) mode_params) →
  is_mode_sequence ps f = false →
  str_eqb (ESC :: ch "[" :: ps ++ [f]) (CSI name) = false.
Proof.
  intros Hname Hmode. apply not_true_is_false. intros Heq%str_eqb_eq.
  unfold CSI in Heq. injection Heq as Heq.
  assert (is_mode_sequence ps f = true); [|congruence].
  cbn in Hname.
  repeat destruct Hname as [Hname|Hname]; try done;
    rewrite <-Hname in Heq; apply app_inj_tail in Heq as [-> ->]; reflexivity.
Qed.

(** [_handle_csi] on a sequence that is not one of the six mode
    sequences. *)
Lemma handle_csi_by_final v ps f out :
  is_mode_sequence ps f = false →
  _handle_csi v (ESC :: ch "[" :: ps ++ [f]) out
  = if (f =? ch "K")%N then
      let mode := match ps with
                  | [] => 0%Z
                  | _ => match Py.int ps with Some m => m | None => 0%Z end
                  end in
      if (mode =? 0)%Z then (set_buffer (take (cursor_x v) (buffer v)) v, out)
      else if (mode =? 2)%Z then (set_cursor_x 0 (set_buffer [] v), out)
      else (v, out)
    else if (f =? ch "G")%N || (f =? ch "`")%N then
      match Py.int ps with
      | Some col => (set_cursor_x (Z.to_nat (Z.max 0 (col - 1))) v, out)
      | None => (v, out)
      end
    else if ((f =? ch "A")%N || (f =? ch "B")%N || (f =? ch "H")%N || (f =? ch "f")%N)
            && in_alt_screen v then break_line v out
    else (v, out).
Proof.
  intros Hmode. unfold _handle_csi.
  rewrite !csi_is_mode_sequence by (done || (cbn; tauto)).
  rewrite !csi_endswith, csi_slice, csi_longer_than_3. cbn [orb].
  by destruct ps.
Qed.

End CsiSequences.

Section CsiEffects.

Implicit Types (v : VT100Lite) (c f : char) (ps ds : str).

Lemma final_cases f (finals : str) :
  one_of finals f = true → forallb csi_final finals = true →
  forallb (λ c, negb (one_of [ch "h"; ch "l"] c)) finals = true →
  csi_final f = true ∧ ∀ ps, is_mode_sequence ps f = false.
Proof.
  unfold one_of at 1. intros (c & Hc & ->%N.eqb_eq)%existsb_exists Hf Hm.
  rewrite forallb_forall in Hf, Hm. split; [auto|]. intros ps.
  unfold is_mode_sequence. apply Hm, negb_true_iff in Hc. by rewrite Hc.
Qed.

End CsiEffects.

(** X3: erase line with a numeric mode of at most 4300 digits, or with no
    parameter at all. Mode 0 and no parameter cut the buffer at the
    cursor, mode 2 empties the buffer and puts the cursor on column 0,
    every other mode changes nothing; no line is emitted. *)
Theorem erase_line_mode (v : VT100Lite) (ds : str) :
  forallb digit ds = true → length ds ≤ 4300 →
  process v (ESC :: ch "[" :: ds ++ [ch "K"])
  = (if digits_value ds =? 0 then set_buffer (take (cursor_x v) (buffer v)) v
     else if digits_value ds =? 2 then set_cursor_x 0 (set_buffer [] v)
     else v,
     []).
Proof.
  intros Hds Hlen.
  rewrite process_csi by (cbn; by rewrite digits_are_params).
  rewrite handle_csi_by_final by done. cbn [N.eqb ch].
  change (ch "K" =? ch "K")%N with true. cbn match.
  destruct ds as [|d ds]; [done|]. rewrite int_of_digits by done.
  set (n := digits_value (d :: ds)).
  replace (Z.of_nat n =? 0)%Z with (n =? 0) by (destruct (Nat.eqb_spec n 0); lia).
  replace (Z.of_nat n =? 2)%Z with (n =? 2) by (destruct (Nat.eqb_spec n 2); lia).
  by destruct (n =? 0), (n =? 2).
Qed.

Lemma erase_line_mode_witness :
  (forallb digit (of_string "2") = true ∧ length (of_string "2") ≤ 4300)
  ∧ process (mkVT 3 (of_string "abcdef") false false None) (CSI "2K")
    = (mkVT 0 [] false false None, []).
Proof.
  split; [split; [reflexivity|by apply Nat.leb_le]|].
  apply (erase_line_mode (mkVT 3 (of_string "abcdef") false false None) (of_string "2")).
  - reflexivity.
  - by apply Nat.leb_le.
Defined.

(** X4: erase line with a parameter that has a [;] or a [?] in it: the
    mode cannot be parsed and stays 0, so the buffer is cut at the
    cursor. *)
Theorem erase_line_unparsed_mode (v : VT100Lite) (ps : str) :
  forallb csi_param ps = true → has_separator ps = true →
  process v (ESC :: ch "[" :: ps ++ [ch "K"])
  = (set_buffer (take (cursor_x v) (buffer v)) v, []).
Proof.
  intros Hps Hsep. rewrite process_csi by (cbn; by rewrite Hps).
  rewrite handle_csi_by_final by done.
  change (ch "K" =? ch "K")%N with true. cbn match.
  rewrite int_of_separated by done. by destruct ps.
Qed.

Lemma erase_line_unparsed_mode_witness :
  (forallb csi_param (of_string "2;1") = true ∧ has_separator (of_string "2;1") = true)
  ∧ process (mkVT 3 (of_string "abcdef") false false None) (CSI "2;1K")
    = (mkVT 3 (of_string "abc") false false None, []).
Proof.
  split; [split; reflexivity|].
  apply (erase_line_unparsed_mode (mkVT 3 (of_string "abcdef") false false None)
           (of_string "2;1")); reflexivity.
Defined.

(** X5: cursor horizontal absolute, final [G] or a backtick, with a
    column of at most 4300 digits: the cursor goes to the column before
    that number, and to column 0 for the number 0. Buffer and lines are
    untouched. *)
Theorem cursor_column (v : VT100Lite) (ds : str) (f : char) :
  forallb digit ds = true → ds ≠ [] → length ds ≤ 4300 →
  one_of [ch "G"; ch "`"] f = true →
  process v (ESC :: ch "[" :: ds ++ [f]) = (set_cursor_x (digits_value ds - 1) v, []).
Proof.
  intros Hds Hne Hlen Hf.
  destruct (final_cases f [ch "G"; ch "`"]) as [Hfin Hmode]; [done..|].
  rewrite process_csi by (cbn; by rewrite digits_are_params).
  rewrite handle_csi_by_final by done.
  unfold one_of in Hf. cbn [existsb] in Hf. rewrite orb_false_r in Hf.
  rewrite Hf. rewrite int_of_digits by done.
  replace (f =? ch "K")%N with false.
  - do 3 f_equal. lia.
  - apply orb_true_iff in Hf as [->%N.eqb_eq| ->%N.eqb_eq]; reflexivity.
Qed.

Lemma cursor_column_witness :
  (forallb digit (of_string "12") = true ∧ of_string "12" ≠ []
   ∧ length (of_string "12") ≤ 4300 ∧ one_of [ch "G"; ch "`"] (ch "G") = true)
  ∧ process VT100Lite_init (CSI "12G") = (set_cursor_x 11 VT100Lite_init, []).
Proof.
  split; [repeat split; (done || by apply Nat.leb_le)|].
  apply (cursor_column VT100Lite_init (of_string "12") (ch "G"));
    (done || by apply Nat.leb_le).
Defined.

(** X6: cursor horizontal absolute without a column, or with a [;] or a
    [?] in it: the column cannot be parsed and nothing changes. *)
Theorem cursor_column_unparsed (v : VT100Lite) (ps : str) (f : char) :
  forallb csi_param ps = true → ps = [] ∨ has_separator ps = true →
  one_of [ch "G"; ch "`"] f = true →
  process v (ESC :: ch "[" :: ps ++ [f]) = (v, []).
Proof.
  intros Hps Hbad Hf.
  destruct (final_cases f [ch "G"; ch "`"]) as [Hfin Hmode]; [done..|].
  rewrite process_csi by (cbn; by rewrite Hps, Hfin).
  rewrite handle_csi_by_final by done.
  unfold one_of in Hf. cbn [existsb] in Hf. rewrite orb_false_r in Hf.
  rewrite Hf.
  replace (f =? ch "K")%N with false
    by (apply orb_true_iff in Hf as [->%N.eqb_eq| ->%N.eqb_eq]; reflexivity).
  destruct Hbad as [->|Hsep]; [done|]. by rewrite int_of_separated.
Qed.

Lemma cursor_column_unparsed_witness :
  (forallb csi_param [] = true ∧ ([] = @nil N ∨ has_separator [] = true)
   ∧ one_of [ch "G"; ch "`"] (ch "G") = true)
  ∧ process (mkVT 5 (of_string "abc") false false None) (CSI "G")
    = (mkVT 5 (of_string "abc") false false None, []).
Proof.
  split; [repeat split; auto|].
  apply (cursor_column_unparsed (mkVT 5 (of_string "abc") false false None) [] (ch "G"));
    auto.
Defined.

(** X7: cursor up, down and position, finals [A], [B], [H] and [f], with
    any parameters. In alternate-screen mode the trimmed buffer is
    emitted when it is not empty, and buffer and cursor are reset; outside
    alternate-screen mode nothing changes. *)
Theorem cursor_motion
  (x : nat) (b : str) (a p : bool) (l : option str) (ps : str) (f : char) :
  forallb csi_param ps = true →
  one_of [ch "A"; ch "B"; ch "H"; ch "f"] f = true →
  process (mkVT x b a p l) (ESC :: ch "[" :: ps ++ [f])
  = if a
    then (mkVT 0 [] a p l, match Py.rstrip b with [] => [] | line => [line] end)
    else (mkVT x b a p l, []).
Proof.
  intros Hps Hf.
  destruct (final_cases f [ch "A"; ch "B"; ch "H"; ch "f"]) as [Hfin Hmode]; [done..|].
  rewrite process_csi by (cbn; by rewrite Hps, Hfin).
  rewrite handle_csi_by_final by done.
  unfold one_of in Hf. cbn [existsb] in Hf. rewrite orb_false_r, !orb_assoc in Hf.
  rewrite Hf. cbn [andb in_alt_screen].
  replace (f =? ch "K")%N with false; [replace ((f =? ch "G") || (f =? ch "`"))%N with false|].
  - destruct a; [|done]. unfold break_line. cbn. by destruct (Py.rstrip b).
  - rewrite !orb_true_iff in Hf.
    destruct Hf as [[[->%N.eqb_eq| ->%N.eqb_eq]| ->%N.eqb_eq]| ->%N.eqb_eq]; reflexivity.
  - rewrite !orb_true_iff in Hf.
    destruct Hf as [[[->%N.eqb_eq| ->%N.eqb_eq]| ->%N.eqb_eq]| ->%N.eqb_eq]; reflexivity.
Qed.

Lemma cursor_motion_witness :
  (forallb csi_param (of_string "1;1") = true
   ∧ one_of [ch "A"; ch "B"; ch "H"; ch "f"] (ch "H") = true)
  ∧ process (mkVT 4 (of_string "menu") true false None) (CSI "1;1H")
    = (mkVT 0 [] true false None, [of_string "menu"]).
Proof.
  split; [split; reflexivity|].
  apply (cursor_motion 4 (of_string "menu") true false None (of_string "1;1") (ch "H"));
    reflexivity.
Defined.

(** X8: every other CSI sequence changes nothing and emits nothing: any
    parameters, a final character from [@] to [~] that is none of [K],
    [G], the backtick, [A], [B], [H] and [f], and not one of the six mode
    sequences. Colours and cursor visibility are of this kind. *)
Theorem other_csi_ignored (v : VT100Lite) (ps : str) (f : char) :
  forallb csi_param ps = true → csi_final f = true →
  one_of (of_string "KG`ABHf") f = false → is_mode_sequence ps f = false →
  process v (ESC :: ch "[" :: ps ++ [f]) = (v, []).
Proof.
  intros Hps Hfin Hf Hmode. rewrite process_csi by (cbn; by rewrite Hps, Hfin).
  rewrite handle_csi_by_final by done.
  unfold one_of, of_string in Hf. cbn [list_ascii_of_string map existsb] in Hf.
  rewrite !orb_false_iff in Hf. destruct Hf as (HK & HG & Hq & HA & HB & HH & Hf & _).
  unfold ch. by rewrite HK, HG, Hq, HA, HB, HH, Hf.
Qed.

Lemma other_csi_ignored_witness :
  (forallb csi_param (of_string "1;32") = true ∧ csi_final (ch "m") = true
   ∧ one_of (of_string "KG`ABHf") (ch "m") = false
   ∧ is_mode_sequence (of_string "1;32") (ch "m") = false)
  ∧ process (mkVT 2 (of_string "ab") true false None) (CSI "1;32m")
    = (mkVT 2 (of_string "ab") true false None, []).
Proof.
  split; [repeat split|].
  apply (other_csi_ignored (mkVT 2 (of_string "ab") true false None)
           (of_string "1;32") (ch "m")); reflexivity.
Defined.

(** ** Sequences that are ignored *)

Section Ignored.

Implicit Types (v : VT100Lite) (c : char) (ps ds text rest : str).

(** An OSC sequence that ends with [ESC \]. *)
Lemma match_osc_st ds text rest :
  forallb digit ds = true → forallb osc_text text = true →
  match_length osc_pattern
    ((ESC :: ch "]" :: ds ++ ch ";" :: text ++ [ESC; ch "\"]) ++ rest)
  = Some (length (ESC :: ch "]" :: ds ++ ch ";" :: text ++ [ESC; ch "\"])).
Proof.
  intros Hds Htext.
  unfold match_length. replace (Regex.run _ _ _) with (Some rest).
  { by rewrite length_app_sub. }
  cbn [app]. cbn. rewrite <-app_assoc. symmetry. apply star_all; [done|].
  cbn. rewrite <-app_assoc, lazy_star_all.
  - reflexivity.
  - eapply forallb_forall. intros c Hc. rewrite forallb_forall in Htext.
    apply Htext in Hc. unfold osc_text in Hc. by destruct (dot c).
  - intros c s' Hc%list_elem_of_In. rewrite forallb_forall in Htext.
    apply Htext in Hc. unfold osc_text in Hc.
    apply andb_true_iff in Hc as [[_ Hb]%andb_true_iff He].
    apply negb_true_iff in Hb, He. by rewrite Hb, He.
Qed.

(** A chunk that is one match of the second or third group. *)
Lemma process_ignored_token v (tok : str) (groups : list (option str)) :
  token_pattern_match tok = Some (groups, length tok) →
  groups = [None; Some tok; None] ∨ groups = [None; None; Some tok] →
  process v tok = (v, []).
Proof.
  intros Hm Hg. unfold process, token_pattern_split.
  pose proof (token_pattern_match_inv _ _ _ Hm) as ([t ->] & _ & _).
  cbn [split_scan]. rewrite Hm.
  replace (length (ESC :: t) - 1) with (length t) by (cbn; lia).
  replace (split_scan t (length t) []) with (split_scan (t ++ []) (length t) [])
    by (by rewrite app_nil_r).
  rewrite split_scan_skip. cbn [split_scan].
  assert (∃ c, one_of (ch "]" :: of_string "=@>78()EHM") c = true
               ∧ head t = Some c) as (c & Hc & Ht).
  { unfold token_pattern_match in Hm.
    destruct (match_length csi_pattern _); [by destruct Hg; simplify_eq|].
    unfold match_length in Hm. cbn in Hm. destruct t as [|c t]; [done|].
    exists c. split; [|done]. unfold one_of. cbn [existsb].
    destruct (c =? ch "]")%N; [done|]. cbn [orb].
    fold (one_of (of_string "=@>78()EHM") c). fold (short_final c).
    by destruct (short_final c). }
  destruct t as [|c' t]; [done|]. injection Ht as ->.
  assert ((c =? ch "[")%N = false) as Hc'.
  { unfold one_of, of_string in Hc. cbn [list_ascii_of_string map existsb] in Hc.
    rewrite !orb_true_iff in Hc.
    repeat destruct Hc as [Hc|Hc]; try done; apply N.eqb_eq in Hc; by subst c. }
  destruct Hg as [-> | ->]; cbn [app foldl handle_part Py.startswith];
    rewrite Hc', N.eqb_refl; cbn [andb]; by destruct (c =? ch "]")%N.
Qed.

End Ignored.

(** X9: an OSC sequence, ended by a bell or by [ESC \], and a
    two-character escape change nothing and emit nothing, in every
    state. *)
Theorem osc_and_short_escapes_ignored (v : VT100Lite) :
  (∀ ds text, forallb digit ds = true → forallb osc_text text = true →
     process v (ESC :: ch "]" :: ds ++ ch ";" :: text ++ [BEL]) = (v, [])
     ∧ process v (ESC :: ch "]" :: ds ++ ch ";" :: text ++ [ESC; ch "\"]) = (v, []))
  ∧ (∀ c, short_final c = true → process v [ESC; c] = (v, [])).
Proof.
  split.
  - intros ds text Hds Htext. split.
    + pose proof (process_stream v [Osc ds text]) as H.
      unfold stream in H. cbn [map concat render] in H. rewrite app_nil_r in H.
      rewrite H; [done|]. cbn. by rewrite Hds, Htext.
    + eapply process_ignored_token; [|by left].
      pose proof (match_osc_st ds text [] Hds Htext) as H.
      rewrite app_nil_r in H. unfold token_pattern_match.
      replace (match_length csi_pattern _) with (@None nat) by reflexivity.
      rewrite H. by rewrite firstn_all.
  - intros c Hc. pose proof (process_stream v [Short c]) as H.
    unfold stream in H. cbn [map concat render app] in H.
    rewrite H; [done|]. cbn. by rewrite Hc.
Qed.

Lemma osc_and_short_escapes_ignored_witness :
  (forallb digit (of_string "0") = true ∧ forallb osc_text (of_string "~/src") = true
   ∧ short_final (ch "=") = true)
  ∧ process (mkVT 1 (of_string "$") false false None)
      (ESC :: ch "]" :: of_string "0" ++ ch ";" :: of_string "~/src" ++ [BEL])
    = (mkVT 1 (of_string "$") false false None, [])
  ∧ process (mkVT 1 (of_string "$") false false None) [ESC; ch "="]
    = (mkVT 1 (of_string "$") false false None, []).
Proof.
  split; [repeat split|]. split.
  - apply (proj1 (osc_and_short_escapes_ignored (mkVT 1 (of_string "$") false false None))
             (of_string "0") (of_string "~/src")); reflexivity.
  - apply (proj2 (osc_and_short_escapes_ignored (mkVT 1 (of_string "$") false false None))
             (ch "=")); reflexivity.
Defined.

(** X10: a well-formed stream can be fed in pieces cut between items:
    the pieces give, one after the other, the state and the lines of the
    whole. *)
Theorem stream_in_pieces (v : VT100Lite) (xs ys : list item) :
  forallb item_ok xs = true → forallb item_ok ys = true →
  process v (stream xs ++ stream ys)
  = (let '(v1, lines1) := process v (stream xs) in
     let '(v2, lines2) := process v1 (stream ys) in
     (v2, lines1 ++ lines2)).
Proof.
  intros Hxs Hys.
  replace (stream xs ++ stream ys) with (stream (xs ++ ys))
    by (unfold stream; by rewrite map_app, concat_app).
  rewrite !process_stream by (done || by rewrite forallb_app, Hxs, Hys).
  fold (exec v (xs ++ ys)) (exec v xs). rewrite exec_app.
  destruct (exec v xs) as [v1 lines1]. rewrite process_stream by done.
  fold (exec v1 ys). cbn [fst snd]. by destruct (exec v1 ys).
Qed.

Lemma stream_in_pieces_witness :
  let xs := [Plain (ch "a"); Csi (of_string "0") (ch "m")] in
  let ys := [Plain (ch "b"); Plain LF] in
  (forallb item_ok xs = true ∧ forallb item_ok ys = true)
  ∧ process VT100Lite_init (stream xs ++ stream ys) = (VT100Lite_init, [of_string "ab"]).
Proof.
  intros xs ys. split; [split; reflexivity|].
  rewrite (stream_in_pieces VT100Lite_init xs ys); reflexivity.
Defined.

(** ** Sequences that are cut off *)

Section CutOff.

Implicit Types (v : VT100Lite) (c : char) (ps t : str).

Lemma param_below_finals c : csi_param c = true → (c < 64)%N.
Proof.
  unfold csi_param, in_range, one_of. cbn [existsb]. eval_ch.
  destruct (N.leb_spec 48 c), (N.leb_spec c 57), (N.eqb_spec c 59), (N.eqb_spec c 63);
    cbn; try done; lia.
Qed.

Lemma param_is_no_final c (finals : str) :
  csi_param c = true → forallb csi_final finals = true → one_of finals c = false.
Proof.
  intros Hc%param_below_finals Hf. apply not_true_is_false.
  unfold one_of. intros (f & Hin & ->%N.eqb_eq)%existsb_exists.
  rewrite forallb_forall in Hf. apply Hf in Hin.
  unfold csi_final, in_range in Hin. apply andb_true_iff in Hin as [?%N.leb_le _]. lia.
Qed.

Lemma star_no_match (p : char → bool) (cs : str) (k : str → option str) :
  forallb p cs = true → k [] = None → (∀ c t, p c = true → k (c :: t) = None) →
  Regex.star p cs k = None.
Proof.
  intros Hcs Hnil Hk. induction cs as [|c cs IH]; [done|].
  cbn in Hcs. apply andb_true_iff in Hcs as [Hc Hcs].
  cbn. rewrite Hc, IH by done. auto.
Qed.

Lemma param_is_not_final c : csi_param c = true → csi_final c = false.
Proof.
  intros Hc. destruct (csi_final c) eqn:E; [|done].
  apply csi_final_not_param in E. congruence.
Qed.

Lemma csi_without_final_matches_nowhere ps :
  forallb csi_param ps = true → matches_nowhere (ESC :: ch "[" :: ps) = true.
Proof.
  intros Hps. cbn [matches_nowhere].
  assert (token_pattern_match (ESC :: ch "[" :: ps) = None) as ->.
  { unfold token_pattern_match, match_length. cbn.
    rewrite star_no_match; [done..|]. intros c t Hc. by rewrite param_is_not_final. }
  apply matches_nowhere_plain. try (apply not_elem_of_cons; split; [done|]).
  by apply (not_in_class csi_param).
Qed.

End CutOff.

(** X11: a CSI sequence that is cut off before its final character, fed
    as a chunk of its own, changes nothing and emits nothing. *)
Theorem unfinished_csi_ignored (v : VT100Lite) (ps : str) :
  forallb csi_param ps = true → process v (ESC :: ch "[" :: ps) = (v, []).
Proof.
  intros Hps. unfold process, token_pattern_split.
  rewrite split_scan_matches_nowhere by by apply csi_without_final_matches_nowhere.
  cbn [app foldl handle_part Py.startswith]. rewrite !N.eqb_refl. cbn [andb].
  destruct ps as [|c ps _] using rev_ind; [reflexivity|].
  rewrite forallb_app in Hps. apply andb_true_iff in Hps as [_ Hc].
  cbn in Hc. rewrite andb_true_r in Hc.
  rewrite handle_csi_by_final.
  - pose proof (param_is_no_final c (of_string "KG`ABHf") Hc eq_refl) as H.
    unfold one_of, of_string in H. cbn [list_ascii_of_string map existsb] in H.
    rewrite !orb_false_iff in H. destruct H as (HK & HG & Hq & HA & HB & HH & Hf & _).
    unfold ch. by rewrite HK, HG, Hq, HA, HB, HH, Hf.
  - unfold is_mode_sequence. by rewrite (param_is_no_final c [ch "h"; ch "l"]).
Qed.

Lemma unfinished_csi_ignored_witness :
  forallb csi_param (of_string "38;5") = true
  ∧ process (mkVT 2 (of_string "ab") false false None) (CSI "38;5")
    = (mkVT 2 (of_string "ab") false false None, []).
Proof.
  split; [reflexivity|].
  apply (unfinished_csi_ignored (mkVT 2 (of_string "ab") false false None)
           (of_string "38;5")). reflexivity.
Defined.

(** X12: a chunk that starts with an escape character not followed by
    [[], and in which the pattern matches nowhere, is dropped as a whole,
    text included: nothing changes and nothing is emitted. *)
Theorem unmatched_escape_run_dropped (v : VT100Lite) (c : char) (t : str) :
  (c =? ch "[")%N = false → matches_nowhere (ESC :: c :: t) = true →
  process v (ESC :: c :: t) = (v, []).
Proof.
  intros Hc Hm. unfold process, token_pattern_split.
  rewrite split_scan_matches_nowhere by done.
  cbn [app foldl handle_part Py.startswith]. rewrite Hc, N.eqb_refl. cbn [andb].
  by destruct (c =? ch "]")%N.
Qed.

Lemma unmatched_escape_run_dropped_witness :
  ((ch "]" =? ch "[")%N = false
   ∧ matches_nowhere (ESC :: ch "]" :: of_string "0;title") = true)
  ∧ process (mkVT 2 (of_string "ab") false false None)
      (ESC :: ch "]" :: of_string "0;title")
    = (mkVT 2 (of_string "ab") false false None, []).
Proof.
  split; [split; reflexivity|].
  apply (unmatched_escape_run_dropped (mkVT 2 (of_string "ab") false false None)
           (ch "]") (of_string "0;title")); reflexivity.
Defined.

(** ** The lines that are emitted *)

Section EmittedLines.

Implicit Types (v : VT100Lite) (c : char) (s : str) (out : list str).

Lemma rstrip_cons c s :
  Py.rstrip (c :: s)
  = match Py.rstrip s with
    | [] => if Py.isspace c then [] else [c]
    | _ => c :: Py.rstrip s
    end.
Proof. reflexivity. Qed.

Lemma rstrip_idemp s : Py.rstrip (Py.rstrip s) = Py.rstrip s.
Proof.
  induction s as [|c s IH]; [done|]. rewrite rstrip_cons.
  destruct (Py.rstrip s) as [|y t] eqn:E.
  - destruct (Py.isspace c) eqn:Ec; [done|]. rewrite rstrip_cons.
    change (Py.rstrip []) with (@nil N). by rewrite Ec.
  - rewrite rstrip_cons, IH. done.
Qed.

Lemma rstrip_blank s : forallb Py.isspace s = true → Py.rstrip s = [].
Proof.
  induction s as [|c s IH]; [done|]. cbn [forallb].
  intros [Hc Hs]%andb_true_iff. by rewrite rstrip_cons, IH, Hc.
Qed.

Lemma break_line_trimmed v out :
  Forall is_trimmed out → Forall is_trimmed (break_line v out).2.
Proof.
  intros Hout. unfold break_line. cbn [snd].
  destruct (Py.rstrip (buffer v)) as [|y t] eqn:E; [done|].
  apply Forall_app. split; [done|]. apply Forall_singleton. split; [done|].
  by rewrite <-E, rstrip_idemp.
Qed.

Lemma markers_trimmed : is_trimmed entered_marker ∧ is_trimmed exited_marker.
Proof. split; (split; [done|]); vm_compute; reflexivity. Qed.

Lemma handle_csi_trimmed v (seq : str) out :
  Forall is_trimmed out → Forall is_trimmed (_handle_csi v seq out).2.
Proof.
  intros Hout. destruct markers_trimmed. unfold _handle_csi.
  repeat match goal with
         | |- context [if ?b then _ else _] => destruct b
         | |- context [match Py.int ?s with _ => _ end] => destruct (Py.int s)
         end; cbn [snd]; try done;
    try (apply Forall_app; split; [done|by apply Forall_singleton]);
    by apply break_line_trimmed.
Qed.

Lemma handle_char_trimmed v out c :
  Forall is_trimmed out → Forall is_trimmed (handle_char (v, out) c).2.
Proof.
  intros Hout. unfold handle_char.
  repeat match goal with
         | |- context [if ?b then _ else _] => destruct b
         end; cbn [snd]; try done; by apply break_line_trimmed.
Qed.

Lemma handle_text_trimmed v s : Forall is_trimmed (_handle_text v s).2.
Proof.
  unfold _handle_text. induction s as [|c s IH] using rev_ind; [by cbn|].
  rewrite foldl_snoc. destruct (foldl handle_char (v, []) s) as [v1 out].
  by apply handle_char_trimmed.
Qed.

Lemma handle_part_trimmed v out (part : option str) :
  Forall is_trimmed out → Forall is_trimmed (handle_part (v, out) part).2.
Proof.
  intros Hout. unfold handle_part. destruct part as [[|c s]|]; try done.
  repeat match goal with
         | |- context [if ?b then _ else _] => destruct b
         end; try done.
  - by apply handle_csi_trimmed.
  - pose proof (handle_text_trimmed v (c :: s)) as H.
    destruct (_handle_text v (c :: s)) as [v1 lines]. cbn [snd] in *.
    apply Forall_app. done.
Qed.

End EmittedLines.

(** X13: every line that [process] emits, for every state and chunk, is
    not empty and has no whitespace at its end. *)
Theorem emitted_lines_trimmed (v : VT100Lite) (chunk : str) :
  Forall is_trimmed (process v chunk).2.
Proof.
  unfold process.
  generalize (token_pattern_split chunk). intros parts.
  induction parts as [|part parts IH] using rev_ind; [by cbn|].
  rewrite foldl_snoc. destruct (foldl handle_part (v, []) parts) as [v1 out].
  by apply handle_part_trimmed.
Qed.

(** X14: [flush] on a buffer that is not empty and holds whitespace only
    returns one empty line, and the [finally] block then writes two
    empty records when nothing is held back. *)
Theorem flush_blank_buffer
  (x : nat) (c : char) (b : str) (a p : bool) (l : option str) (file : list str) :
  forallb Py.isspace (c :: b) = true →
  flush (mkVT x (c :: b) a p l) = (mkVT x (c :: b) a p l, [[]])
  ∧ clean_file (finally_block (mkSession (mkVT x (c :: b) a p l) [] file)).1
    = file ++ [[]; []].
Proof.
  intros H%rstrip_blank. unfold finally_block, flush. cbn. by rewrite H.
Qed.

Lemma flush_blank_buffer_witness :
  forallb Py.isspace (of_string "  ") = true
  ∧ flush (mkVT 2 (of_string "  ") false false None)
    = (mkVT 2 (of_string "  ") false false None, [[]]).
Proof.
  split; [reflexivity|].
  apply (flush_blank_buffer 2 SPACE [SPACE] false false None []). reflexivity.
Defined.

(** X15: the boundary buffer loses nothing and holds little. What is
    released followed by what is held back is the accumulated text; what
    is held back is at most 256 characters, and is empty or starts with
    the only escape character it has. So it is after every read. *)
Theorem pending_is_bounded (st : Session) (t : str) :
  let buf := clean_log_buffer st ++ t in
  let pending := clean_log_buffer (on_output st t).1 in
  (hold_back buf).1 ++ pending = buf
  ∧ length pending ≤ 256
  ∧ (pending = [] ∨ ∃ w, pending = ESC :: w ∧ ESC ∉ w).
Proof.
  intros buf pending.
  assert (pending = (hold_back buf).2) as ->.
  { unfold pending. rewrite on_output_eq. fold buf.
    destruct (hold_back buf) as [P R].
    by destruct (emulate_and_log _ _ P) as [[? ?] ?]. }
  unfold hold_back. destruct (Py.rfind ESC buf) as [k|] eqn:Hk; cbn [fst snd].
  - destruct (Nat.ltb_spec 256 (length buf - k)); cbn [fst snd].
    + rewrite app_nil_r. cbn. auto with lia.
    + rewrite take_drop, length_drop. split; [done|]. split; [lia|]. right.
      apply rfind_Some in Hk as [Hk Hlast]. exists (drop (S k) buf).
      split; [by apply drop_S|].
      intros (i & Hi)%list_elem_of_lookup. rewrite lookup_drop in Hi.
      by apply (Hlast (S k + i)); [lia|].
  - rewrite app_nil_r. cbn. auto with lia.
Qed.

(** ** What [process] leaves alone *)

Section Frames.

Implicit Types (v : VT100Lite) (c : char) (seq s : str) (out : list str).

Lemma handle_csi_last_logged v seq out (l : option str) :
  _handle_csi (set_last_logged_line l v) seq out
  = (set_last_logged_line l (_handle_csi v seq out).1, (_handle_csi v seq out).2).
Proof.
  destruct v as [x b a p l0].
  unfold _handle_csi, break_line, set_last_logged_line, set_cursor_x, set_buffer,
    set_in_alt_screen, set_bracketed_paste_mode;
    cbn [cursor_x buffer in_alt_screen bracketed_paste_mode last_logged_line].
  repeat match goal with
         | |- context [if ?b then _ else _] => destruct b
         | |- context [match Py.int ?s with _ => _ end] => destruct (Py.int s)
         end; reflexivity.
Qed.

Lemma handle_text_last_logged v s (l : option str) :
  _handle_text (set_last_logged_line l v) s
  = (set_last_logged_line l (_handle_text v s).1, (_handle_text v s).2).
Proof.
  unfold _handle_text. induction s as [|c s IH] using rev_ind; [done|].
  rewrite !foldl_snoc, IH. destruct (foldl handle_char (v, []) s) as [v1 l1].
  apply (exec_item_last_logged v1 l1 l (Plain c)).
Qed.

Lemma handle_part_last_logged v out (part : option str) (l : option str) :
  handle_part (set_last_logged_line l v, out) part
  = (set_last_logged_line l (handle_part (v, out) part).1,
     (handle_part (v, out) part).2).
Proof.
  unfold handle_part. destruct part as [[|c s]|]; try done.
  repeat match goal with
         | |- context [if ?b then _ else _] => destruct b
         end; try done.
  - apply handle_csi_last_logged.
  - rewrite handle_text_last_logged. by destruct (_handle_text v (c :: s)).
Qed.

(** The same for [bracketed_paste_mode], which a sequence may set. *)
Lemma handle_csi_paste_mode v seq out (p : bool) :
  ∃ p', _handle_csi (set_bracketed_paste_mode p v) seq out
        = (set_bracketed_paste_mode p' (_handle_csi v seq out).1,
           (_handle_csi v seq out).2).
Proof.
  destruct v as [x b a p0 l].
  unfold _handle_csi, break_line, set_last_logged_line, set_cursor_x, set_buffer,
    set_in_alt_screen, set_bracketed_paste_mode;
    cbn [cursor_x buffer in_alt_screen bracketed_paste_mode last_logged_line].
  repeat match goal with
         | |- context [if ?b then _ else _] => destruct b
         | |- context [match Py.int ?s with _ => _ end] => destruct (Py.int s)
         end; cbn [fst snd];
    first [by exists p | by exists true | by exists false].
Qed.

Lemma handle_char_paste_mode v out c (p : bool) :
  handle_char (set_bracketed_paste_mode p v, out) c
  = (set_bracketed_paste_mode p (handle_char (v, out) c).1, (handle_char (v, out) c).2).
Proof.
  destruct v as [x b a p0 l].
  unfold handle_char, break_line, set_bracketed_paste_mode, set_cursor_x, set_buffer; cbn.
  repeat match goal with
         | |- context [if ?b then _ else _] => destruct b
         end; reflexivity.
Qed.

Lemma handle_text_paste_mode v s (p : bool) :
  _handle_text (set_bracketed_paste_mode p v) s
  = (set_bracketed_paste_mode p (_handle_text v s).1, (_handle_text v s).2).
Proof.
  unfold _handle_text. induction s as [|c s IH] using rev_ind; [done|].
  rewrite !foldl_snoc, IH. destruct (foldl handle_char (v, []) s) as [v1 l1].
  apply handle_char_paste_mode.
Qed.

Lemma handle_part_paste_mode v out (part : option str) (p : bool) :
  ∃ p', handle_part (set_bracketed_paste_mode p v, out) part
        = (set_bracketed_paste_mode p' (handle_part (v, out) part).1,
           (handle_part (v, out) part).2).
Proof.
  unfold handle_part. destruct part as [[|c s]|]; try by exists p.
  repeat match goal with
         | |- context [if ?b then _ else _] => destruct b
         end; try by exists p.
  - apply handle_csi_paste_mode.
  - exists p. rewrite handle_text_paste_mode. by destruct (_handle_text v (c :: s)).
Qed.

End Frames.

Lemma process_last_logged (v : VT100Lite) (chunk : str) (l : option str) :
  process (set_last_logged_line l v) chunk
  = (set_last_logged_line l (process v chunk).1, (process v chunk).2).
Proof.
  unfold process. generalize (token_pattern_split chunk). intros parts.
  induction parts as [|part parts IH] using rev_ind; [done|].
  rewrite !foldl_snoc, IH. destruct (foldl handle_part (v, []) parts) as [v1 out].
  apply handle_part_last_logged.
Qed.

(** X16: [process] neither reads nor writes [last_logged_line]: with
    another value in that field it gives the same lines and the same
    state, that value apart, for every chunk. *)
Theorem process_ignores_last_logged_line
  (v : VT100Lite) (chunk : str) (l : option str) :
  process (set_last_logged_line l v) chunk
  = (set_last_logged_line l (process v chunk).1, (process v chunk).2)
  ∧ last_logged_line (process v chunk).1 = last_logged_line v.
Proof.
  split; [apply process_last_logged|]. destruct v as [x b a p l0].
  pose proof (process_last_logged (mkVT x b a p None) chunk l0) as H.
  unfold set_last_logged_line in H at 1. cbn in H. by rewrite H.
Qed.

(** X17: bracketed paste. [ESC [ ? 2004 h] and [ESC [ ? 2004 l] set and
    clear the flag and do nothing else, and the flag has no influence on
    anything else: whatever its value, [process] gives the same lines
    and, the flag apart, the same state, for every chunk. *)
Theorem bracketed_paste_is_tracked_only (v : VT100Lite) :
  process v (CSI "?2004h") = (set_bracketed_paste_mode true v, [])
  ∧ process v (CSI "?2004l") = (set_bracketed_paste_mode false v, [])
  ∧ ∀ chunk p, ∃ p',
      process (set_bracketed_paste_mode p v) chunk
      = (set_bracketed_paste_mode p' (process v chunk).1, (process v chunk).2).
Proof.
  split; [run_process; reflexivity|]. split; [run_process; reflexivity|].
  intros chunk p. unfold process.
  generalize (token_pattern_split chunk). intros parts.
  induction parts as [|part parts IH] using rev_ind; [by exists p|].
  destruct IH as [p1 IH]. rewrite !foldl_snoc, IH.
  destruct (foldl handle_part (v, []) parts) as [v1 out].
  apply handle_part_paste_mode.
Qed.

(** ** The log that the loop writes *)

Section LoopLog.

Implicit Types (prev : option str) (lines w : list str) (line : str).

Lemma no_adjacent_repeat_snoc w line :
  no_adjacent_repeat w → (∀ x, last w = Some x → x ≠ line) →
  no_adjacent_repeat (w ++ [line]).
Proof.
  intros Hw Hlast i x y Hi HSi.
  destruct (decide (S i < length w)) as [Hlt|Hge].
  - rewrite lookup_app_l in Hi, HSi by lia. by eapply Hw.
  - pose proof (lookup_lt_Some _ _ _ HSi) as Hlen. rewrite length_app in Hlen.
    cbn in Hlen. assert (S i = length w) as Heq by lia.
    rewrite lookup_app_r in HSi by lia. rewrite Heq, Nat.sub_diag in HSi.
    injection HSi as <-. rewrite lookup_app_l in Hi by lia.
    apply Hlast. rewrite last_lookup. by replace (pred (length w)) with i by lia.
Qed.

Lemma logged_snoc prev lines line :
  logged prev (lines ++ [line])
  = (let '(l, w) := logged prev lines in
     if match l with Some x => str_eqb line x | None => false end
     then (l, w) else (Some line, w ++ [line])).
Proof.
  unfold logged. rewrite foldl_snoc. by destruct (foldl _ (prev, []) lines).
Qed.

(** What is logged: the lines without those that repeat the line in
    front of them. *)
Lemma logged_spec prev lines :
  let '(l, w) := logged prev lines in
  l = match last w with Some x => Some x | None => prev end
  ∧ no_adjacent_repeat w
  ∧ sublist w lines
  ∧ ∀ line, line ∈ lines → line ∈ w ∨ prev = Some line.
Proof.
  induction lines as [|line lines IH] using rev_ind.
  - cbn. split; [done|]. split; [by intros i x y ?|]. split; [done|].
    by intros line ?%elem_of_nil.
  - rewrite logged_snoc. destruct (logged prev lines) as [l w].
    destruct IH as (Hl & Hw & Hsub & Hin).
    destruct (match l with Some x => str_eqb line x | None => false end) eqn:E.
    + split; [done|]. split; [done|]. split; [by apply sublist_inserts_r|].
      intros line' [?|Hx]%elem_of_app; [auto|].
      apply list_elem_of_singleton in Hx as ->.
      destruct l as [x|]; [|done]. apply str_eqb_eq in E as ->.
      destruct (last w) as [y|] eqn:Ew; [|by right].
      injection Hl as ->. left. by eapply last_Some_elem_of.
    + split; [by rewrite last_snoc|]. split; [|split].
      * apply no_adjacent_repeat_snoc; [done|]. intros x Hx ->.
        rewrite Hx in Hl. subst l. clear -E.
        assert (str_eqb line line = true) as H by by apply str_eqb_eq.
        congruence.
      * by apply sublist_app.
      * intros line' [?%Hin|Hx]%elem_of_app.
        -- rewrite elem_of_app. tauto.
        -- apply list_elem_of_singleton in Hx as ->.
           left. apply elem_of_app. right. left.
Qed.

Lemma on_output_logged (st : Session) (t : str) :
  let '(st', lines) := on_output st t in
  clean_file st' = clean_file st ++ (logged (last_logged_line (vt st)) lines).2
  ∧ last_logged_line (vt st') = (logged (last_logged_line (vt st)) lines).1.
Proof.
  rewrite on_output_eq. destruct (hold_back _) as [P R]. unfold emulate_and_log.
  destruct (process (vt st) P) as [v lines] eqn:E. rewrite log_lines. cbn.
  assert (last_logged_line v = last_logged_line (vt st)) as ->; [|done].
  destruct (vt st) as [x b a p l0].
  pose proof (process_last_logged (mkVT x b a p None) P l0) as H.
  unfold set_last_logged_line in H at 1. cbn in H. rewrite E in H.
  by injection H as ->.
Qed.

Lemma main_loop_snoc (st : Session) (reads : list str) (t : str) :
  main_loop st (reads ++ [t])
  = (let '(st1, produced) := main_loop st reads in
     let '(st', lines) := on_output st1 t in
     (st', produced ++ lines)).
Proof.
  unfold main_loop. rewrite foldl_snoc. by destruct (foldl _ (st, []) reads).
Qed.

Lemma main_loop_logged (st : Session) (reads : list str) :
  let '(st', produced) := main_loop st reads in
  clean_file st' = clean_file st ++ (logged (last_logged_line (vt st)) produced).2
  ∧ last_logged_line (vt st') = (logged (last_logged_line (vt st)) produced).1.
Proof.
  induction reads as [|t reads IH] using rev_ind.
  - cbn. by rewrite app_nil_r.
  - rewrite main_loop_snoc. destruct (main_loop st reads) as [st1 produced].
    destruct IH as [Hfile Hl]. pose proof (on_output_logged st1 t) as H.
    destruct (on_output st1 t) as [st' lines]. destruct H as [Hfile' Hl'].
    rewrite logged_app. cbn [fst snd]. rewrite <-Hl.
    split; [|done]. by rewrite Hfile', Hfile, app_assoc.
Qed.

End LoopLog.

(** X18: the clean log that the read loop writes, over any number of
    reads: no record repeats the record in front of it, also across
    reads; the records are completed lines in the order they were
    produced, and every completed line is among them; and
    [last_logged_line] is the last record. *)
Theorem loop_log_without_repeats (reads : list str) :
  let '(st, produced) := main_loop Session_init reads in
  no_adjacent_repeat (clean_file st)
  ∧ sublist (clean_file st) produced
  ∧ (∀ line, line ∈ produced → line ∈ clean_file st)
  ∧ last_logged_line (vt st) = last (clean_file st).
Proof.
  pose proof (main_loop_logged Session_init reads) as H.
  destruct (main_loop Session_init reads) as [st produced].
  destruct H as [Hfile Hl]. cbn in Hfile, Hl.
  pose proof (logged_spec None produced) as H.
  destruct (logged None produced) as [l w]. cbn [fst snd] in *.
  destruct H as (Hlast & Hw & Hsub & Hin). rewrite Hlast in Hl. rewrite Hfile, Hl.
  split; [done|]. split; [done|]. split; [|by destruct (last w)].
  intros line Hline. by destruct (Hin line Hline).
Qed.

(** ** Overwriting in place *)

Section Overwrite.

Implicit Types (c : char) (seg b : str) (a p : bool) (l : option str) (out : list str).

Lemma write_in_place c (k : nat) b a p l :
  k ≤ length b →
  write c (mkVT k b a p l) = mkVT (k + 1) (take k b ++ c :: drop (S k) b) a p l.
Proof.
  intros Hk. unfold write, set_cursor_x, set_buffer; cbn. f_equal.
  destruct (Nat.leb_spec (length b) k).
  - assert (k = length b) as -> by lia.
    rewrite Nat.sub_diag, insert_app_r_alt, Nat.sub_diag by lia. cbn.
    by rewrite firstn_all, drop_ge by lia.
  - by apply insert_take_drop.
Qed.

(** Plain text typed with the cursor inside the buffer replaces what is
    under it, character by character, and leaves the rest. *)
Lemma overwrite_plain seg (k : nat) b a p l out :
  forallb is_plain seg = true → k ≤ length b →
  foldl handle_char (mkVT k b a p l, out) seg
  = (mkVT (k + length seg) (take k b ++ seg ++ drop (k + length seg) b) a p l, out).
Proof.
  revert k b. induction seg as [|c seg IH]; intros k b Hseg Hk.
  - cbn. by rewrite !Nat.add_0_r, take_drop.
  - cbn in Hseg. apply andb_true_iff in Hseg as [Hc Hseg].
    apply is_plain_spec in Hc as (_ & _ & Hc).
    cbn [foldl]. rewrite handle_char_write, write_in_place by done.
    rewrite IH; [|done|rewrite length_app, length_take; cbn; lia].
    assert (length (take k b) = k) as Hlen by (rewrite length_take; lia).
    f_equal. f_equal; [cbn; lia|].
    replace (k + 1 + length seg) with (k + (1 + length seg)) by lia.
    rewrite (take_app_add' _ _ k 1), (drop_app_add' _ _ k (1 + length seg)) by done.
    cbn [take drop Nat.add length]. rewrite take_0, drop_drop, <-!app_assoc. cbn.
    do 4 f_equal. lia.
Qed.

Lemma backspaces (n k : nat) b a p l out :
  foldl handle_char (mkVT k b a p l, out) (replicate n BS)
  = (mkVT (k - n) b a p l, out).
Proof.
  revert k. induction n as [|n IH]; intros k; cbn.
  - by rewrite Nat.sub_0_r.
  - unfold set_cursor_x; cbn. rewrite IH. do 2 f_equal. lia.
Qed.

End Overwrite.

(** X19: a carriage return outside alternate-screen mode makes the next
    text overwrite the line from its start. After the plain text [t1], a
    carriage return and the plain text [t2], fed in the initial state,
    the buffer is [t2] followed by what [t1] has beyond the length of
    [t2], the cursor is behind [t2], and no line is emitted. *)
Theorem carriage_return_overwrites (t1 t2 : str) :
  forallb is_plain t1 = true → forallb is_plain t2 = true →
  process VT100Lite_init (t1 ++ CR :: t2)
  = (mkVT (length t2) (t2 ++ drop (length t2) t1) false false None, []).
Proof.
  intros H1 H2. rewrite process_plain.
  - unfold _handle_text, VT100Lite_init. rewrite foldl_app.
    rewrite (handle_plain_text t1 []) by done. cbn [app foldl].
    change (handle_char (mkVT (length t1) t1 false false None, []) CR)
      with (mkVT 0 t1 false false None, @nil str).
    by rewrite overwrite_plain by (done || lia).
  - apply not_elem_of_app. split; [by apply plain_no_escape|].
    apply not_elem_of_cons. split; [done|by apply plain_no_escape].
Qed.

Lemma carriage_return_overwrites_witness :
  (forallb is_plain (of_string "50% done") = true
   ∧ forallb is_plain (of_string "100%") = true)
  ∧ process VT100Lite_init (of_string "50% done" ++ CR :: of_string "100%")
    = (mkVT 4 (of_string "100%done") false false None, []).
Proof.
  split; [split; reflexivity|].
  apply (carriage_return_overwrites (of_string "50% done") (of_string "100%"));
    reflexivity.
Defined.

(** X20: a backspace moves the cursor and erases nothing. After the
    plain text [t1], [n] backspaces and the plain text [t2], fed in the
    initial state, the cursor went back [n] columns, not below column 0,
    and [t2] replaced what was under it: the buffer is [t1] up to there,
    then [t2], then what [t1] has beyond the end of [t2]. *)
Theorem backspace_then_retype (t1 t2 : str) (n : nat) :
  forallb is_plain t1 = true → forallb is_plain t2 = true →
  let k := length t1 - n in
  process VT100Lite_init (t1 ++ replicate n BS ++ t2)
  = (mkVT (k + length t2) (take k t1 ++ t2 ++ drop (k + length t2) t1)
       false false None, []).
Proof.
  intros H1 H2 k. rewrite process_plain.
  - unfold _handle_text, VT100Lite_init. rewrite !foldl_app.
    rewrite (handle_plain_text t1 []) by done. cbn [app].
    rewrite backspaces. by rewrite overwrite_plain by (done || lia).
  - rewrite !not_elem_of_app. split; [by apply plain_no_escape|].
    split; [|by apply plain_no_escape].
    by intros [[=] _]%elem_of_replicate.
Qed.

Lemma backspace_then_retype_witness :
  (forallb is_plain (of_string "foo") = true ∧ forallb is_plain (of_string "bar") = true)
  ∧ process VT100Lite_init (of_string "foo" ++ replicate 2 BS ++ of_string "bar")
    = (mkVT 4 (of_string "fbar") false false None, []).
Proof.
  split; [split; reflexivity|].
  apply (backspace_then_retype (of_string "foo") (of_string "bar") 2); reflexivity.
Defined.

(** X21: a character written with the cursor at or beyond the end of the
    buffer: the buffer is filled up with spaces to the cursor column and
    the character is put behind them. *)
Theorem write_beyond_end
  (k : nat) (b : str) (a p : bool) (l : option str) (c : char) :
  is_plain c = true → length b ≤ k →
  process (mkVT k b a p l) [c]
  = (mkVT (k + 1) (b ++ replicate (k - length b) SPACE ++ [c]) a p l, []).
Proof.
  intros Hc Hk. pose proof (is_plain_spec c Hc) as (Hesc & _ & Hctl).
  rewrite process_plain
    by (apply not_elem_of_cons; split; [done|apply not_elem_of_nil]).
  unfold _handle_text. cbn [foldl]. rewrite handle_char_write by done.
  unfold write, set_cursor_x, set_buffer; cbn. do 2 f_equal.
  apply Nat.leb_le in Hk as Hk'. rewrite Hk'.
  rewrite insert_app_r_alt by done.
  rewrite Nat.add_1_r, replicate_S_end, insert_app_r_alt; rewrite length_replicate; [|done].
  by rewrite Nat.sub_diag.
Qed.

Lemma write_beyond_end_witness :
  (is_plain (ch "x") = true ∧ length (of_string "ab") ≤ 4)
  ∧ process (mkVT 4 (of_string "ab") false false None) [ch "x"]
    = (mkVT 5 (of_string "ab  x") false false None, []).
Proof.
  split; [split; [reflexivity|by apply Nat.leb_le]|].
  apply (write_beyond_end 4 (of_string "ab") false false None (ch "x"));
    [reflexivity|by apply Nat.leb_le].
Defined.

(** ** Line breaks in alternate-screen mode *)

Lemma handle_alt_segments
  (segs : list str) (rest : str) (p : bool) (l : option str) (out : list str) :
  forallb (forallb is_plain) segs = true → forallb is_plain rest = true →
  foldl handle_char (mkVT 0 [] true p l, out)
    (concat (map (λ seg, seg ++ [CR]) segs) ++ rest)
  = (mkVT (length rest) rest true p l,
     out ++ List.filter nonempty (map Py.rstrip segs)).
Proof.
  intros Hsegs Hrest. revert out Hsegs.
  induction segs as [|seg segs IH]; intros out; cbn [forallb map concat List.filter].
  - intros _. rewrite app_nil_r. by apply (handle_plain_text rest []).
  - intros [Hseg Hsegs]%andb_true_iff.
    rewrite <-!app_assoc, foldl_app.
    rewrite (handle_plain_text seg []) by done. cbn [app foldl].
    change (handle_char (mkVT (length seg) seg true p l, out) CR)
      with (break_line (mkVT (length seg) seg true p l) out).
    unfold break_line; cbn [buffer]. unfold set_cursor_x, set_buffer; cbn.
    destruct (Py.rstrip seg) eqn:E; cbn [nonempty].
    + by apply IH.
    + rewrite IH by done. by rewrite <-app_assoc.
Qed.

(** X22: in alternate-screen mode a carriage return ends a line as a
    line feed does. For plain text interleaved with carriage returns, fed
    with an empty buffer, the emitted lines are the segments that a
    carriage return ends, trimmed, without those that are empty after
    trimming; the text after the last one stays in the buffer. *)
Theorem carriage_return_segments_in_alt_screen
  (segs : list str) (rest : str) (p : bool) (l : option str) :
  forallb (forallb is_plain) segs = true → forallb is_plain rest = true →
  process (mkVT 0 [] true p l) (concat (map (λ seg, seg ++ [CR]) segs) ++ rest)
  = (mkVT (length rest) rest true p l, List.filter nonempty (map Py.rstrip segs)).
Proof.
  intros Hsegs Hrest. rewrite process_plain.
  - unfold _handle_text. by rewrite handle_alt_segments.
  - apply not_elem_of_app. split; [|by apply plain_no_escape].
    clear Hrest. induction segs as [|seg segs IH]; cbn in *; [apply not_elem_of_nil|].
    apply andb_true_iff in Hsegs as [Hseg Hsegs].
    rewrite <-app_assoc. apply not_elem_of_app. split; [by apply plain_no_escape|].
    apply not_elem_of_cons. split; [done|auto].
Qed.

Lemma carriage_return_segments_in_alt_screen_witness :
  let segs := [of_string "GNU nano"; of_string "  "] in
  (forallb (forallb is_plain) segs = true ∧ forallb is_plain (of_string "^X") = true)
  ∧ process (mkVT 0 [] true false None)
      (concat (map (λ seg, seg ++ [CR]) segs) ++ of_string "^X")
    = (mkVT 2 (of_string "^X") true false None, [of_string "GNU nano"]).
Proof.
  intros segs. split; [split; reflexivity|].
  apply (carriage_return_segments_in_alt_screen segs (of_string "^X") false None);
    reflexivity.
Defined.

(** ** Text without escape characters over several turns of the loop *)

Section PlainReads.

Implicit Types (v : VT100Lite) (file : list str) (t : str) (reads : list str).

Lemma plain_is_stream t :
  ESC ∉ t → forallb item_ok (map Plain t) = true ∧ stream (map Plain t) = t.
Proof.
  induction t as [|c t IH]; [done|]. intros [Hc Ht]%not_elem_of_cons.
  destruct (IH Ht) as [Hok Hs]. unfold stream in *. cbn. rewrite Hok, Hs.
  split; [|done]. rewrite andb_true_r. apply negb_true_iff, N.eqb_neq. congruence.
Qed.

Lemma hold_back_plain t : ESC ∉ t → hold_back t = (t, []).
Proof. intros H%rfind_None. unfold hold_back. by rewrite H. Qed.

Lemma main_loop_plain v file reads :
  Forall (λ t, ESC ∉ t) reads →
  main_loop (mkSession v [] file) reads
  = (let '(v', file', lines) := emulate_and_log v file (concat reads) in
     (mkSession v' [] file', lines)).
Proof.
  induction reads as [|t reads IH] using rev_ind; intros Hreads.
  - reflexivity.
  - apply Forall_app in Hreads as [Hreads [Ht _]%Forall_cons].
    rewrite main_loop_snoc, IH by done. rewrite concat_app. cbn [concat].
    rewrite app_nil_r.
    assert (ESC ∉ concat reads) as Hc.
    { clear -Hreads. induction Hreads; cbn; [apply not_elem_of_nil|].
      by apply not_elem_of_app. }
    destruct (plain_is_stream _ Hc) as [Hok1 Hs1].
    destruct (plain_is_stream _ Ht) as [Hok2 Hs2].
    replace (concat reads ++ t)
      with (stream (map Plain (concat reads)) ++ stream (map Plain t))
      by (by rewrite Hs1, Hs2).
    rewrite emulate_and_log_app by done. rewrite Hs1, Hs2.
    destruct (emulate_and_log v file (concat reads)) as [[v1 file1] lines1].
    rewrite on_output_eq. cbn [clean_log_buffer vt clean_file app].
    rewrite hold_back_plain by done.
    by destruct (emulate_and_log v1 file1 t) as [[v2 file2] lines2].
Qed.

End PlainReads.

(** X23: for decoded texts without escape characters it does not matter
    how the text is divided among the turns of the loop: any list of such
    texts gives the same completed lines, clean log and final state as one
    turn with their concatenation. The texts are the values of [text],
    one for each read; [main] decodes every read on its own, so this is
    about the text after decoding and not about where the reads cut the
    bytes. *)
Theorem plain_texts_as_one (v : VT100Lite) (file : list str) (texts : list str) :
  Forall (λ t, ESC ∉ t) texts →
  session_run (mkSession v [] file) texts
  = session_run (mkSession v [] file) [concat texts].
Proof.
  intros Htexts. unfold session_run.
  rewrite (main_loop_plain v file texts) by done.
  rewrite (main_loop_plain v file [concat texts]).
  - cbn [concat]. by rewrite app_nil_r.
  - apply Forall_singleton. clear -Htexts.
    induction Htexts; cbn; [apply not_elem_of_nil|]. by apply not_elem_of_app.
Qed.

Lemma plain_texts_as_one_witness :
  let texts := [of_string "ab"; of_string "c" ++ [LF] ++ of_string "d"; [LF]] in
  Forall (λ t, ESC ∉ t) texts
  ∧ (session_run Session_init texts).2 = [of_string "abc"; of_string "d"].
Proof.
  intros texts. split.
  - repeat constructor; apply rfind_None; reflexivity.
  - unfold Session_init. rewrite (plain_texts_as_one VT100Lite_init [] texts).
    + reflexivity.
    + repeat constructor; apply rfind_None; reflexivity.
Defined.

(** ** The alternate-screen flag *)

Lemma exec_item_keeps_alt_screen (acc : VT100Lite * list str) (it : item) :
  is_alt_screen_item it = false →
  in_alt_screen (exec_item acc it).1 = in_alt_screen acc.1.
Proof.
  destruct acc as [[x b a p l] out].
  destruct it as [c|ps f| |]; cbn [exec_item fst]; try done.
  - intros _. unfold handle_char, break_line. cbn.
    repeat match goal with
           | |- context [if ?b then _ else _] => destruct b
           end; reflexivity.
  - cbn [is_alt_screen_item render]. intros Halt.
    assert (∀ name, In (of_string name)
                       [of_string "?1049h"; of_string "?47h";
                        of_string "?1049l"; of_string "?47l"] →
              str_eqb (ESC :: ch "[" :: ps ++ [f]) (CSI name) = false) as Hne.
    { intros name Hname. apply not_true_is_false. intros Heq%str_eqb_eq.
      unfold CSI in Heq. injection Heq as Heq.
      assert (one_of [ch "h"; ch "l"] f
              && (str_eqb ps (of_string "?1049") || str_eqb ps (of_string "?47")) = true);
        [|congruence].
      cbn in Hname.
      repeat destruct Hname as [Hname|Hname]; try done; rewrite <-Hname in Heq;
        [change (of_string "?1049h") with (of_string "?1049" ++ [ch "h"]) in Heq
        |change (of_string "?47h") with (of_string "?47" ++ [ch "h"]) in Heq
        |change (of_string "?1049l") with (of_string "?1049" ++ [ch "l"]) in Heq
        |change (of_string "?47l") with (of_string "?47" ++ [ch "l"]) in Heq];
        apply app_inj_tail in Heq as [-> ->]; reflexivity. }
    unfold _handle_csi. rewrite !Hne by (cbn; tauto). cbn [orb].
    unfold break_line. cbn [cursor_x buffer in_alt_screen].
    repeat match goal with
           | |- context [if ?b then _ else _] => destruct b
           | |- context [match Py.int ?s with _ => _ end] => destruct (Py.int s)
           end; reflexivity.
Qed.

(** X24: only the four alternate-screen sequences change
    [in_alt_screen]: a well-formed stream without them leaves the flag as
    it was. *)
Theorem alt_screen_flag_kept (v : VT100Lite) (items : list item) :
  forallb item_ok items = true → existsb is_alt_screen_item items = false →
  in_alt_screen (process v (stream items)).1 = in_alt_screen v.
Proof.
  intros Hok Halt. rewrite process_stream by done.
  change (in_alt_screen v) with (in_alt_screen (v, @nil str).1).
  generalize (v, @nil str). clear v Hok.
  induction items as [|it items IH]; intros acc; [done|].
  cbn in Halt. apply orb_false_iff in Halt as [Hit Halt].
  cbn [foldl]. rewrite IH by done. by apply exec_item_keeps_alt_screen.
Qed.

Lemma alt_screen_flag_kept_witness :
  let items := [Csi (of_string "?25") (ch "h"); Plain (ch "a"); Csi (of_string "2") (ch "J")] in
  (forallb item_ok items = true ∧ existsb is_alt_screen_item items = false)
  ∧ in_alt_screen (process (mkVT 0 [] true false None) (stream items)).1 = true.
Proof.
  intros items. split; [split; reflexivity|].
  apply (alt_screen_flag_kept (mkVT 0 [] true false None) items); reflexivity.
Defined.
